(** * WebARGame: the detection-to-selection pipeline

  A shallow embedding of the pure core of the treasure-hunt game:
  - [src/utils/segment-helper.js]  (person masks, mask hit test, embeddings),
  - [src/utils/detection.js]       (detector adapter, coordinate mapper, tap resolver),
  - [src/utils/capture-edit-model.js] (IoU, mask/box matching, contain fit),
  - [src/main.js]                  ([tryFindTreasure]).

  Number model.  JavaScript numbers are embedded as exact numbers: the
  geometry (boxes, rectangles, pixel coordinates, scores) over the rationals
  [Q], where every operation of the source is computable, and the embedding
  similarity, which calls [Math.sqrt], over the reals [R].  Rounding, NaN
  and infinities of IEEE doubles are outside the model; equalities between
  rationals are stated with [==].

  Effects.  A call that may throw (or a promise that may reject) returns a
  [Completion]; the module-level caches of the loaders are threaded as
  explicit state; the toasts and callbacks of [tryFindTreasure] are
  collected in a trace. *)

From Stdlib Require Import QArith Qround Qminmax.
From Stdlib Require Import Reals Psatz Lia.
From Stdlib Require Import String List Bool.
From stdpp Require Import gmap.
Import ListNotations.

Set Default Proof Using "Type".

(** ** JavaScript values shared by the modules *)

Module Js.

(** The normal or abrupt end of a call: [Throws] also stands for a
    rejected promise that is awaited. *)
Inductive Completion (A : Type) : Type :=
| Returns (a : A)
| Throws.
Arguments Returns {A} a.
Arguments Throws {A}.

(** [!x] on a number: only zero is falsy (NaN is outside the model). *)
Definition falsy (x : Q) : bool := Qeq_bool x 0.


(** A string in a condition: only the empty string is falsy. *)
Definition truthy (s : string) : bool :=
  match s with
  | EmptyString => false
  | String _ _ => true
  end.

(** [a < b] and [a <= b] on numbers, as booleans. *)
Definition leb (a b : Q) : bool := Qle_bool a b.
Definition ltb (a b : Q) : bool := negb (Qle_bool b a).

(** [a || b] on integer-valued properties that may be [undefined]. *)
Definition or_dim (a b : option Z) : option Z :=
  match a with
  | Some v => if (v =? 0)%Z then b else a
  | None => b
  end.

(** An axis-aligned box, the array [[x, y, width, height]]. *)
Record Box : Type := mkBox { box_x : Q; box_y : Q; box_w : Q; box_h : Q }.

(** A detection as the detector returns it; [score] may be missing. *)
Record Prediction : Type := mkPrediction {
  class : string;
  bbox : Box;
  score : option Q
}.

(** The object literal [{ class, bbox }] the tap resolver returns. *)
Record Pick : Type := mkPick { pick_class : string; pick_bbox : Box }.

(** [getBoundingClientRect()] of the view. *)
Record DOMRect : Type := mkRect {
  rect_left : Q; rect_top : Q; rect_width : Q; rect_height : Q
}.

(** The size properties the helpers read off an image, canvas or video. *)
Record Image : Type := mkImage {
  img_width : option Z; img_naturalWidth : option Z; img_videoWidth : option Z;
  img_height : option Z; img_naturalHeight : option Z; img_videoHeight : option Z
}.

(** [ImageData.data]: the RGBA bytes of a mask, row by row. *)
Record ImageData : Type := mkImageData { data : list Z }.

End Js.
Import Js.

(** ** src/utils/capture-edit-model.js *)

Module CaptureEditModel.
Local Open Scope Q_scope.

Definition iouOf (a b : Box) : Q :=
  let ix := Qmax (box_x a) (box_x b) in
  let iy := Qmax (box_y a) (box_y b) in
  let iw := Qmax 0 (Qmin (box_x a + box_w a) (box_x b + box_w b) - ix) in
  let ih := Qmax 0 (Qmin (box_y a + box_h a) (box_y b + box_h b) - iy) in
  let inter := iw * ih in
  let areaA := box_w a * box_h a in
  let areaB := box_w b * box_h b in
  let union := areaA + areaB - inter in
  if leb union 0 then 0 else inter / union.

(** An entry of [segmentMasks]: [{ mask, bbox }]. *)
Record SegmentMask : Type := mkSegmentMask { mask : ImageData; mask_bbox : Box }.

(** The inner loop over [j]: [bestJ] starts at the sentinel -1 (here
    [None]) and [bestIoU] at 0. *)
Definition bestStep (used : gset nat) (predBox : Box)
    (acc : option nat * Q) (jm : nat * SegmentMask) : option nat * Q :=
  if decide (jm.1 ∈ used) then acc
  else
    let iou := iouOf predBox (mask_bbox jm.2) in
    if ltb acc.2 iou then (Some jm.1, iou) else acc.

Definition bestUnused (used : gset nat) (predBox : Box)
    (segmentMasks : list SegmentMask) : option nat * Q :=
  fold_left (bestStep used predBox) (imap pair segmentMasks) (None, 0).

(** The outer loop over [i], from index [i] on, with the map and the
    [used] set built so far. *)
Fixpoint matchFrom (i : nat) (predictions : list Prediction)
    (segmentMasks : list SegmentMask)
    (map : gmap nat nat) (used : gset nat) : gmap nat nat :=
  match predictions with
  | [] => map
  | p :: rest =>
      let best := bestUnused used (bbox p) segmentMasks in
      match best.1 with
      | Some bestJ =>
          if ltb (2 # 10) best.2
          then matchFrom (S i) rest segmentMasks (<[i := bestJ]> map) ({[bestJ]} ∪ used)
          else matchFrom (S i) rest segmentMasks map used
      | None => matchFrom (S i) rest segmentMasks map used
      end
  end.

Definition matchPredictionsToSegmentMasks (predictions : list Prediction)
    (segmentMasks : list SegmentMask) : gmap nat nat :=
  match segmentMasks with
  | [] => ∅
  | _ => matchFrom 0 predictions segmentMasks ∅ ∅
  end.

(** The contain-fit rectangle. *)
Record FitRect : Type := mkFitRect {
  displayWidth : Q; displayHeight : Q; offsetX : Q; offsetY : Q
}.

Definition getContainDisplayRect (clientW clientH : Q) (sourceW sourceH : option Q)
    : FitRect :=
  match sourceW, sourceH with
  | Some sw, Some sh =>
      if falsy sw || falsy sh then mkFitRect clientW clientH 0 0
      else
        let scale := Qmin (clientW / sw) (clientH / sh) in
        let w := sw * scale in
        let h := sh * scale in
        mkFitRect w h ((clientW - w) / 2) ((clientH - h) / 2)
  | _, _ => mkFitRect clientW clientH 0 0
  end.

End CaptureEditModel.

(** ** src/utils/segment-helper.js: person segmentation *)

Module SegmentHelper.
Local Open Scope Z_scope.

(** What [segmentation.mask] can be, as [maskToImageData] tells it apart. *)
Inductive Mask : Type :=
| MaskWithToImageData (out : Completion (option ImageData))
    (* has a method toImageData(); [out] is what awaiting its result gives *)
| MaskOfUnderlyingType (underlyingType : string) (self : ImageData)
    (* has getUnderlyingType(); the mask object is returned as it is *)
| MaskPlain.

(** One element of the array [segmentPeople] resolves to. *)
Record Segmentation : Type := mkSegmentation { seg_mask : option Mask }.

(** The segmenter object; [segmentPeople] may not be a function.  Its
    second argument tells whether [{ multiSegmentation: true }] is passed. *)
Record Segmenter : Type := mkSegmenter {
  segmentPeople : option (Image -> bool -> Completion (option (list Segmentation)))
}.

Inductive SupportedModel : Type := BodyPix | MediaPipeSelfieSegmentation.

(** [window.bodySegmentation], when the script is loaded. *)
Record BodySegmentation : Type := mkBodySegmentation {
  hasBodyPix : bool;
  hasMediaPipe : bool;
  createSegmenter : SupportedModel -> Completion Segmenter
}.

Record Window : Type := mkWindow { bodySegmentation : option BodySegmentation }.

(** The module-level variables [segmenter] and [segmenterLoadPromise];
    the promise is represented by the value it resolves to. *)
Record Loader : Type := mkLoader {
  segmenter : option Segmenter;
  segmenterLoadPromise : option (option Segmenter)
}.

Definition isSegmentAvailable (win : Window) : bool :=
  match bodySegmentation win with Some _ => true | None => false end.

Definition isSegmentAvailableForClass (win : Window) (className : string) : bool :=
  String.eqb className "person" && isSegmentAvailable win.

Definition loadSegmenter (win : Window) (st : Loader) : option Segmenter * Loader :=
  match segmenter st with
  | Some s => (Some s, st)
  | None =>
      match segmenterLoadPromise st with
      | Some r => (r, st)
      | None =>
          let r :=
            match bodySegmentation win with
            | None => None
            | Some lib =>
                let model :=
                  if hasBodyPix lib then Some BodyPix
                  else if hasMediaPipe lib then Some MediaPipeSelfieSegmentation
                  else None in
                match model with
                | None => None
                | Some m =>
                    match createSegmenter lib m with
                    | Returns s => Some s
                    | Throws => None
                    end
                end
            end in
          (r, {| segmenter := r; segmenterLoadPromise := Some r |})
      end
  end.

Definition maskToImageData (segmentation : Segmentation)
    : Completion (option ImageData) :=
  match seg_mask segmentation with
  | None => Returns None
  | Some (MaskWithToImageData out) => out
  | Some (MaskOfUnderlyingType t self) =>
      if String.eqb t "imagedata" then Returns (Some self) else Returns None
  | Some MaskPlain => Returns None
  end.

(** [data[i]]: [undefined] outside the array. *)
Definition byteAt (idata : ImageData) (i : Z) : option Z :=
  if i <? 0 then None else nth_error (data idata) (Z.to_nat i).

(** [alpha > 128]; the comparison with [undefined] is false. *)
Definition above128 (alpha : option Z) : bool :=
  match alpha with
  | Some v => 128 <? v
  | None => false
  end.

(** The counter values [0, 1, ..., n-1] of a [for] loop. *)
Definition upto (n : Z) : list Z := List.map Z.of_nat (seq 0 (Z.to_nat n)).

(** The local variables of [maskToBbox]. *)
Record Scan : Type := mkScan {
  minX : Z; minY : Z; maxX : Z; maxY : Z; hasPixel : bool
}.

Definition scanPixel (idata : ImageData) (width y : Z) (s : Scan) (x : Z) : Scan :=
  let i := (y * width + x) * 4 in
  let alpha := byteAt idata (i + 3) in
  if above128 alpha then
    let minX' := if x <? minX s then x else minX s in
    let maxX' := if maxX s <? x then x else maxX s in
    let minY' := if y <? minY s then y else minY s in
    let maxY' := if maxY s <? y then y else maxY s in
    mkScan minX' minY' maxX' maxY' true
  else s.

Definition scanRow (idata : ImageData) (width : Z) (s : Scan) (y : Z) : Scan :=
  fold_left (scanPixel idata width y) (upto width) s.

Definition scanMask (idata : ImageData) (width height : Z) : Scan :=
  fold_left (scanRow idata width) (upto height) (mkScan width height 0 0 false).

(** A loop whose bound is [undefined] never runs, so no pixel is found. *)
Definition maskToBbox (idata : ImageData) (width height : option Z) : option Box :=
  match width, height with
  | Some w, Some h =>
      let s := scanMask idata w h in
      if hasPixel s
      then Some (mkBox (inject_Z (minX s)) (inject_Z (minY s))
                       (inject_Z (maxX s - minX s + 1))
                       (inject_Z (maxY s - minY s + 1)))
      else None
  | _, _ => None
  end.

(** [x >= bound]; false when the bound is [undefined]. *)
Definition geDim (x : Z) (bound : option Z) : bool :=
  match bound with
  | Some b => b <=? x
  | None => false
  end.

Definition isPointInMask (idata : ImageData) (width height : option Z)
    (px py : Q) : bool :=
  let x := Qfloor px in
  let y := Qfloor py in
  if (x <? 0) || geDim x width || (y <? 0) || geDim y height then false
  else
    match width with
    | Some w => let i := (y * w + x) * 4 in above128 (byteAt idata (i + 3))
    | None => false
    end.

Definition imageWidth (image : Image) : option Z :=
  or_dim (or_dim (img_width image) (img_naturalWidth image)) (img_videoWidth image).

Definition imageHeight (image : Image) : option Z :=
  or_dim (or_dim (img_height image) (img_naturalHeight image)) (img_videoHeight image).

(** The result [{ bbox, index }] of the hit test. *)
Record SegmentHit : Type := mkSegmentHit { hit_bbox : Box; hit_index : nat }.

(** The [for] loop of [getSegmentHitAndBbox] from instance [i] on. *)
Fixpoint hitFrom (i : nat) (people : list Segmentation) (width height : option Z)
    (px py : Q) : Completion (option SegmentHit) :=
  match people with
  | [] => Returns None
  | person :: rest =>
      match maskToImageData person with
      | Throws => Throws
      | Returns None => hitFrom (S i) rest width height px py
      | Returns (Some idata) =>
          if isPointInMask idata width height px py then
            match maskToBbox idata width height with
            | Some b => Returns (Some (mkSegmentHit b i))
            | None => hitFrom (S i) rest width height px py
            end
          else hitFrom (S i) rest width height px py
      end
  end.

(** [segmentPeople] with the option, and without it when that throws. *)
Definition callSegmentPeople
    (f : Image -> bool -> Completion (option (list Segmentation)))
    (image : Image) : Completion (option (list Segmentation)) :=
  match f image true with
  | Returns people => Returns people
  | Throws => f image false
  end.

Definition getSegmentHitAndBbox (win : Window) (st : Loader) (image : Image)
    (px py : Q) : option SegmentHit * Loader :=
  let (seg, st') := loadSegmenter win st in
  match seg with
  | None => (None, st')
  | Some s =>
      match segmentPeople s with
      | None => (None, st')
      | Some f =>
          match callSegmentPeople f image with
          | Throws => (None, st')
          | Returns None => (None, st')
          | Returns (Some []) => (None, st')
          | Returns (Some people) =>
              match hitFrom 0 people (imageWidth image) (imageHeight image) px py with
              | Throws => (None, st')
              | Returns r => (r, st')
              end
          end
      end
  end.

End SegmentHelper.

(** ** src/utils/detection.js *)

Module Detection.
Local Open Scope Q_scope.

(** The detector object; [detect] may not be a function.  The awaited
    result may be [null]. *)
Record Model : Type := mkModel {
  detect : option (Image -> Completion (option (list Prediction)))
}.

Record Options : Type := mkOptions { scoreThreshold : option Q }.

(** [opts = {}]. *)
Definition noOptions : Options := mkOptions None.

Definition runDetection (model : option Model) (image : Image) (opts : Options)
    : list Prediction :=
  match model with
  | None => []
  | Some m =>
      match detect m with
      | None => []
      | Some run =>
          let threshold := default 0 (scoreThreshold opts) in
          match run image with
          | Returns predictions =>
              List.filter (fun p => leb threshold (default 0 (score p)))
                          (default [] predictions)
          | Throws => []
          end
      end
  end.

Record Point : Type := mkPoint { px : Q; py : Q }.

Definition clientToSource (rect : DOMRect) (sourceWidth sourceHeight clientX clientY : Q)
    : Point :=
  if falsy (rect_width rect) || falsy (rect_height rect) then mkPoint 0 0
  else
    let scaleX := sourceWidth / rect_width rect in
    let scaleY := sourceHeight / rect_height rect in
    mkPoint ((clientX - rect_left rect) * scaleX) ((clientY - rect_top rect) * scaleY).

(** The filter of [pickAtClient]. *)
Definition containsPoint (p : Point) (b : Box) : bool :=
  leb (box_x b) (px p) && leb (px p) (box_x b + box_w b)
  && leb (box_y b) (py p) && leb (py p) (box_y b + box_h b).

Definition area (p : Prediction) : Q := box_w (bbox p) * box_h (bbox p).

(** [Array.prototype.sort] with a comparator: a stable sort, here by
    insertion (an element goes before the first one it does not exceed). *)
Fixpoint insertBy {A : Type} (cmp : A -> A -> Q) (a : A) (l : list A) : list A :=
  match l with
  | [] => [a]
  | b :: rest => if leb (cmp a b) 0 then a :: b :: rest else b :: insertBy cmp a rest
  end.

Definition sortBy {A : Type} (cmp : A -> A -> Q) (l : list A) : list A :=
  fold_right (insertBy cmp) [] l.

Definition pickAtClient (rect : DOMRect) (sourceWidth sourceHeight clientX clientY : Q)
    (predictions : list Prediction) : option Pick :=
  if falsy (rect_width rect) || falsy (rect_height rect)
     || Nat.eqb (length predictions) 0
  then None
  else
    let p := clientToSource rect sourceWidth sourceHeight clientX clientY in
    let hits := List.filter (fun d => containsPoint p (bbox d)) predictions in
    match sortBy (fun a b => area a - area b) hits with
    | hit :: _ => Some (mkPick (class hit) (bbox hit))
    | [] => None
    end.

Definition pickDetectionAt (win : SegmentHelper.Window) (st : SegmentHelper.Loader)
    (image : Image) (rect : DOMRect) (sourceWidth sourceHeight clientX clientY : Q)
    (predictions : list Prediction) (targetClass : option string)
    : option Pick * SegmentHelper.Loader :=
  let p := clientToSource rect sourceWidth sourceHeight clientX clientY in
  let boxes := pickAtClient rect sourceWidth sourceHeight clientX clientY predictions in
  match targetClass with
  | Some cls =>
      if truthy cls && SegmentHelper.isSegmentAvailableForClass win cls then
        let (segResult, st') :=
          SegmentHelper.getSegmentHitAndBbox win st image (px p) (py p) in
        match segResult with
        | Some r => (Some (mkPick cls (SegmentHelper.hit_bbox r)), st')
        | None => (boxes, st')
        end
      else (boxes, st)
  | None => (boxes, st)
  end.

End Detection.

(** ** src/utils/segment-helper.js: feature embedding *)

Module FeatureEmbedding.
Local Open Scope R_scope.

(** The three accumulators of the loop of [cosineSimilarity]. *)
Record Sums : Type := mkSums { dot : R; normA : R; normB : R }.

Definition accumulate (s : Sums) (ab : R * R) : Sums :=
  mkSums (dot s + ab.1 * ab.2) (normA s + ab.1 * ab.1) (normB s + ab.2 * ab.2).

(** The loop reads [a[i]] and [b[i]] for [i < a.length], the lengths being
    equal when it is reached. *)
Definition sums (a b : list R) : Sums :=
  fold_left accumulate (combine a b) (mkSums 0 0 0).

Definition cosineSimilarity (a b : list R) : R :=
  if Nat.eqb (length a) 0 || negb (Nat.eqb (length a) (length b)) then 0
  else
    let s := sums a b in
    let denom := sqrt (normA s) * sqrt (normB s) in
    if Rle_dec denom 0 then 0
    else
      let sim := dot s / denom in
      Rmax 0 (Rmin 1 ((sim + 1) / 2)).

Definition FEATURE_SIMILARITY_THRESHOLD : R := 65 / 100.

End FeatureEmbedding.

(** ** src/main.js: the tap on the camera view *)

Module Main.
Import Detection FeatureEmbedding.

(** The fields of a treasure that [tryFindTreasure] reads.
    [featureEmbedding] is [None] when absent or not an array. *)
Record Treasure : Type := mkTreasure {
  detectedObject : option string;
  featureEmbedding : option (list R);
  featureLabel : option string
}.

Record ClickEvent : Type := mkClickEvent { clientX : option Q; clientY : option Q }.

(** The toasts of [tryFindTreasure], by their meaning. *)
Inductive Message : Type :=
| MsgSelectionUnavailable     (* object selection cannot be used *)
| MsgDetecting                (* detecting... *)
| MsgSelectionLoadFailed      (* object selection could not be loaded *)
| MsgTreasureNotVisible       (* no detection at all in the frame *)
| MsgNothingThere             (* no detection under the tap *)
| MsgNotThatOne               (* wrong object, try again *)
| MsgChecking                 (* checking the target... *)
| MsgOtherInstance (cls label : string). (* another one of this class; look for [label] *)

(** What the function does to the rest of the game, in order. *)
Inductive Event : Type :=
| ShowToast (m : Message)
| SetDetectionModel
| OnMarkerFound (found : option string).

(** The collaborators of [tryFindTreasure]. *)
Record Env : Type := mkEnv {
  currentTreasure : option Treasure;      (* gameData.items[currentTreasureIndex] *)
  videoRect : DOMRect;                    (* video.getBoundingClientRect() *)
  videoWidth : Z;
  videoHeight : Z;
  detectionAvailable : bool;              (* isDetectionAvailable() *)
  storedModel : option Model;             (* store.detectionModel *)
  loadDetectionModel : Completion (option Model);
  window : SegmentHelper.Window;
  getEmbeddingFromCrop : Image -> Box -> Z -> Z -> Completion (list R)
}.

(** [x || fallback] on a video dimension. *)
Definition orDefault (x fallback : Z) : Z := if (x =? 0)%Z then fallback else x.

(** [video.videoWidth || 640] and [video.videoHeight || 480]. *)
Definition frameWidth (env : Env) : Z := orDefault (videoWidth env) 640.
Definition frameHeight (env : Env) : Z := orDefault (videoHeight env) 480.

(** [clickEvent?.clientX ?? 0] and [clickEvent?.clientY ?? 0]. *)
Definition tapX (clickEvent : option ClickEvent) : Q := default 0%Q (clickEvent ≫= clientX).
Definition tapY (clickEvent : option ClickEvent) : Q := default 0%Q (clickEvent ≫= clientY).

(** The canvas the frame is drawn on. *)
Definition captureCanvas (vw vh : Z) : Image :=
  mkImage (Some vw) None None (Some vh) None None.

(** [currentTreasure?.detectedObject || null]. *)
Definition targetOf (t : option Treasure) : option string :=
  match t with
  | Some tr =>
      match detectedObject tr with
      | Some cls => if truthy cls then Some cls else None
      | None => None
      end
  | None => None
  end.

(** [refEmbedding && Array.isArray(refEmbedding) && refEmbedding.length > 0]. *)
Definition referenceOf (t : option Treasure) : option (list R) :=
  match t with
  | Some tr =>
      match featureEmbedding tr with
      | Some (x :: ref) => Some (x :: ref)
      | _ => None
      end
  | None => None
  end.

(** The toast of a candidate that is not similar enough. *)
Definition rejection (t : option Treasure) (targetObject : string) : Message :=
  match t with
  | Some tr =>
      match featureLabel tr with
      | Some label => if truthy label then MsgOtherInstance targetObject label
                      else MsgNotThatOne
      | None => MsgNotThatOne
      end
  | None => MsgNotThatOne
  end.

Definition tryFindTreasure (env : Env) (st : SegmentHelper.Loader)
    (clickEvent : option ClickEvent) : list Event * SegmentHelper.Loader :=
  match targetOf (currentTreasure env) with
  | None => ([OnMarkerFound None], st)
  | Some targetObject =>
      let rect := videoRect env in
      let vw := frameWidth env in
      let vh := frameHeight env in
      let cx := tapX clickEvent in
      let cy := tapY clickEvent in
      if negb (detectionAvailable env) then ([ShowToast MsgSelectionUnavailable], st)
      else
        let loaded :=
          match storedModel env with
          | Some m => Returns ([], Some m)
          | None =>
              match loadDetectionModel env with
              | Returns (Some m) => Returns ([SetDetectionModel], Some m)
              | Returns None => Returns ([], None)
              | Throws => Throws
              end
          end in
        match loaded with
        | Throws => ([ShowToast MsgDetecting; ShowToast MsgSelectionLoadFailed], st)
        | Returns (_, None) =>
            ([ShowToast MsgDetecting; ShowToast MsgSelectionLoadFailed], st)
        | Returns (ev, Some model) =>
            let canvas := captureCanvas vw vh in
            let filtered :=
              runDetection (Some model) canvas (mkOptions (Some (5 # 10)%Q)) in
            if Nat.eqb (length filtered) 0
            then (ShowToast MsgDetecting :: ev ++ [ShowToast MsgTreasureNotVisible], st)
            else
              let (hit, st') :=
                pickDetectionAt (window env) st canvas rect
                  (inject_Z vw) (inject_Z vh) cx cy filtered (Some targetObject) in
              match hit with
              | None => (ShowToast MsgDetecting :: ev ++ [ShowToast MsgNothingThere], st')
              | Some h =>
                  if negb (String.eqb (pick_class h) targetObject)
                  then (ShowToast MsgDetecting :: ev ++ [ShowToast MsgNotThatOne], st')
                  else
                    match referenceOf (currentTreasure env) with
                    | Some refEmbedding =>
                        match getEmbeddingFromCrop env canvas (pick_bbox h) vw vh with
                        | Returns candidateEmbedding =>
                            let sim := cosineSimilarity refEmbedding candidateEmbedding in
                            if Rge_dec sim FEATURE_SIMILARITY_THRESHOLD
                            then (ShowToast MsgDetecting :: ev
                                    ++ [ShowToast MsgChecking;
                                        OnMarkerFound (Some targetObject)], st')
                            else (ShowToast MsgDetecting :: ev
                                    ++ [ShowToast MsgChecking;
                                        ShowToast (rejection (currentTreasure env)
                                                             targetObject)], st')
                        | Throws =>
                            (ShowToast MsgDetecting :: ev
                               ++ [ShowToast MsgChecking;
                                   OnMarkerFound (Some targetObject)], st')
                        end
                    | None =>
                        (ShowToast MsgDetecting :: ev
                           ++ [OnMarkerFound (Some targetObject)], st')
                    end
              end
        end
  end.

(** The tap is taken as the treasure: [onMarkerFound(targetObject)] is called. *)
Definition accepted (targetObject : string) (trace : list Event) : Prop :=
  In (OnMarkerFound (Some targetObject)) trace.

End Main.

(** ** JavaScript arithmetic used beyond the claims *)

Module JsMath.

(** [Math.round]: the nearest integer, halves upwards. *)
Definition round (x : Q) : Z := Qfloor (x + (1 # 2)).

(** [Math.floor]. *)
Definition floor (x : Q) : Z := Qfloor x.

End JsMath.

(** ** src/utils/capture-edit-model.js: cover fit, draw plan, overlay view *)

Module Viewers.
Import CaptureEditModel JsMath.
Local Open Scope Q_scope.

(** The cover-fit result [{ scale, srcX, srcY, displayWidth, displayHeight }]. *)
Record CoverRect : Type := mkCoverRect {
  scale : Q; srcX : Q; srcY : Q; cover_displayWidth : Q; cover_displayHeight : Q
}.

Definition getCoverDisplayRect (clientW clientH : Q) (sourceW sourceH : option Q)
    : CoverRect :=
  match sourceW, sourceH with
  | Some sw, Some sh =>
      if falsy sw || falsy sh then mkCoverRect 1 0 0 clientW clientH
      else
        let scale := Qmax (clientW / sw) (clientH / sh) in
        let displayW := sw * scale in
        let displayH := sh * scale in
        let srcX := (sw - clientW / scale) / 2 in
        let srcY := (sh - clientH / scale) / 2 in
        mkCoverRect scale srcX srcY displayW displayH
  | _, _ => mkCoverRect 1 0 0 clientW clientH
  end.

(** The options [drawPredictionsWithSegments] reads; a missing or zero
    size counts as 1, a missing threshold as 0.5. *)
Record DrawOptions : Type := mkDrawOptions {
  opt_sourceWidth : option Q;
  opt_sourceHeight : option Q;
  opt_displayWidth : option Q;
  opt_displayHeight : option Q;
  opt_scoreThreshold : option Q;
  opt_withIndex : bool
}.

(** [x || 1] on a size. *)
Definition orOne (x : option Q) : Q :=
  match x with
  | Some v => if falsy v then 1 else v
  | None => 1
  end.

(** What is drawn for one detection: the hatched mask with the outline
    of its box, or the outline of the detection box (in display
    coordinates). *)
Inductive Shape : Type :=
| SegmentShape (segmentIdx : nat) (segment : SegmentMask)
| BoxShape (x y width height : Q).

(** One detection of the overlay: its position in the filtered list, the
    shape, the percentage of the label and where the label text goes. *)
Record DrawItem : Type := mkDrawItem {
  item_index : nat;
  item_class : string;
  item_shape : Shape;
  item_scorePct : Z;
  item_labelX : Q;
  item_labelY : Q
}.

(** The predictions the overlay keeps: [(p.score ?? 1) >= scoreThreshold]. *)
Definition drawn (opts : DrawOptions) (predictions : list Prediction) : list Prediction :=
  List.filter (fun p => leb (default (5 # 10) (opt_scoreThreshold opts))
                            (default 1 (score p))) predictions.

(** The body of the [forEach] of [drawPredictionsWithSegments]. *)
Definition drawItem (opts : DrawOptions) (segmentMasks : list SegmentMask)
    (predToSegment : gmap nat nat) (idx : nat) (pred : Prediction) : DrawItem :=
  let scaleX := orOne (opt_displayWidth opts) / orOne (opt_sourceWidth opts) in
  let scaleY := orOne (opt_displayHeight opts) / orOne (opt_sourceHeight opts) in
  let b := bbox pred in
  let shape :=
    match predToSegment !! idx ≫= (fun j => pair j <$> segmentMasks !! j) with
    | Some (segmentIdx, segment) => SegmentShape segmentIdx segment
    | None => BoxShape (box_x b * scaleX) (box_y b * scaleY)
                       (box_w b * scaleX) (box_h b * scaleY)
    end in
  let scaledX := box_x b * scaleX in
  let scaledY := box_y b * scaleY in
  let scaledHeight := box_h b * scaleY in
  let scorePct := round (default 0 (score pred) * 100) in
  let labelY := if ltb 25 scaledY then scaledY - 5 else scaledY + scaledHeight + 20 in
  mkDrawItem idx (class pred) shape scorePct (scaledX + 5) (labelY - 2).

(** The detections [drawPredictionsWithSegments] draws, in order. *)
Definition drawPredictionsWithSegments (predictions : list Prediction)
    (segmentMasks : list SegmentMask) (opts : DrawOptions) : list DrawItem :=
  let filtered := drawn opts predictions in
  let predToSegment := matchPredictionsToSegmentMasks filtered segmentMasks in
  imap (drawItem opts segmentMasks predToSegment) filtered.

Definition MAX_LAYOUT_RETRIES : nat := 60.

Inductive Fit : Type := Contain | Cover.

(** The fields of a [DetectionOverlayView]; [attached] tells that the
    container and the overlay canvas are set ([destroy] unsets them).  The
    draw options kept are the threshold and the index flag. *)
Record OverlayView : Type := mkOverlayView {
  attached : bool;
  fit : Fit;
  view_sourceWidth : Q;
  view_sourceHeight : Q;
  view_predictions : list Prediction;
  view_segmentMasks : list SegmentMask;
  view_scoreThreshold : option Q;
  view_withIndex : bool;
  layoutRetries : nat
}.

(** What [render] does to the canvas and the frame scheduler, in order. *)
Inductive RenderEffect : Type :=
| RequestAnimationFrame
| ResizeAndClear (cw ch : Z)
| Translate (dx dy : Q)
| Clip (width height : Q)
| Draw (items : list DrawItem).

(** [render()], given the client size of the container. *)
Definition render (v : OverlayView) (cw ch : Z) : OverlayView * list RenderEffect :=
  if negb (attached v) then (v, [])
  else if (cw =? 0)%Z || (ch =? 0)%Z then
    if (layoutRetries v <? MAX_LAYOUT_RETRIES)%nat
    then (mkOverlayView (attached v) (fit v) (view_sourceWidth v) (view_sourceHeight v)
            (view_predictions v) (view_segmentMasks v) (view_scoreThreshold v)
            (view_withIndex v) (S (layoutRetries v)),
          [RequestAnimationFrame])
    else (v, [])
  else
    let v' := mkOverlayView (attached v) (fit v) (view_sourceWidth v) (view_sourceHeight v)
                (view_predictions v) (view_segmentMasks v) (view_scoreThreshold v)
                (view_withIndex v) 0 in
    if falsy (view_sourceWidth v) || falsy (view_sourceHeight v)
    then (v', [ResizeAndClear cw ch])
    else
      let opts dw dh :=
        mkDrawOptions (Some (view_sourceWidth v)) (Some (view_sourceHeight v))
                      (Some dw) (Some dh) (view_scoreThreshold v) (view_withIndex v) in
      match fit v with
      | Contain =>
          let rect := getContainDisplayRect (inject_Z cw) (inject_Z ch)
                        (Some (view_sourceWidth v)) (Some (view_sourceHeight v)) in
          (v', [ResizeAndClear cw ch;
                Translate (offsetX rect) (offsetY rect);
                Clip (displayWidth rect) (displayHeight rect);
                Draw (drawPredictionsWithSegments (view_predictions v)
                        (view_segmentMasks v)
                        (opts (displayWidth rect) (displayHeight rect)))])
      | Cover =>
          let rect := getCoverDisplayRect (inject_Z cw) (inject_Z ch)
                        (Some (view_sourceWidth v)) (Some (view_sourceHeight v)) in
          (v', [ResizeAndClear cw ch;
                Clip (inject_Z cw) (inject_Z ch);
                Translate (- srcX rect * scale rect) (- srcY rect * scale rect);
                Draw (drawPredictionsWithSegments (view_predictions v)
                        (view_segmentMasks v)
                        (opts (cover_displayWidth rect) (cover_displayHeight rect)))])
      end.

End Viewers.

(** ** src/utils/detection.js: the detector loader *)

Module DetectionLoader.
Import Detection.

(** [window.cocoSsd], when the script is loaded; [load] is what awaiting
    [cocoSsd.load()] gives. *)
Record CocoSsd : Type := mkCocoSsd { load : Completion Model }.

Record Window : Type := mkWindow { cocoSsd : option CocoSsd }.

(** The module-level variables [cachedModel] and [loadPromise]; the
    promise is represented by the value it resolves to. *)
Record Cache : Type := mkCache {
  cachedModel : option Model;
  loadPromise : option (option Model)
}.

Definition isDetectionAvailable (win : Window) : bool :=
  match cocoSsd win with Some _ => true | None => false end.

Definition loadDetectionModel (win : Window) (st : Cache) : option Model * Cache :=
  match cocoSsd win with
  | None => (None, st)
  | Some lib =>
      match cachedModel st with
      | Some m => (Some m, st)
      | None =>
          match loadPromise st with
          | Some r => (r, st)
          | None =>
              match load lib with
              | Returns m => (Some m, mkCache (Some m) (Some (Some m)))
              | Throws => (None, mkCache None (Some None))
              end
          end
      end
  end.

End DetectionLoader.

(** ** src/utils/segment-helper.js: the masks of the overlay and the crop *)

Module SegmentMasks.
Import SegmentHelper CaptureEditModel JsMath.

(** The [for] loop of [getSegmentMasks], with the [result] array so far. *)
Fixpoint masksFrom (people : list Segmentation) (width height : option Z)
    (result : list SegmentMask) : Completion (list SegmentMask) :=
  match people with
  | [] => Returns result
  | person :: rest =>
      match maskToImageData person with
      | Throws => Throws
      | Returns None => masksFrom rest width height result
      | Returns (Some idata) =>
          match maskToBbox idata width height with
          | Some b => masksFrom rest width height (result ++ [mkSegmentMask idata b])
          | None => masksFrom rest width height result
          end
      end
  end.

Definition getSegmentMasks (win : Window) (st : Loader) (image : Image)
    : list SegmentMask * Loader :=
  let (seg, st') := loadSegmenter win st in
  match seg with
  | None => ([], st')
  | Some s =>
      match segmentPeople s with
      | None => ([], st')
      | Some f =>
          match callSegmentPeople f image with
          | Throws => ([], st')
          | Returns None => ([], st')
          | Returns (Some []) => ([], st')
          | Returns (Some people) =>
              match masksFrom people (imageWidth image) (imageHeight image) [] with
              | Throws => ([], st')
              | Returns result => (result, st')
              end
          end
      end
  end.


Local Open Scope Q_scope.


End SegmentMasks.

(** ** src/utils/capture-edit-model.js: the class CaptureEditModel *)

Module EditModel.
Import CaptureEditModel.

(** The fields of a treasure that the model reads.  [predictions] and
    [segmentMasks] are [None] when the field is not an array. *)
Record Treasure : Type := mkTreasure {
  capturedImage : option string;
  sourceWidth : option Q;
  sourceHeight : option Q;
  predictions : option (list Prediction);
  segmentMasks : option (list SegmentMask);
  detectedObject : option string
}.

(** The private fields of the model.  A listener is named by a number;
    [m_listeners] is the [Set] of listeners in insertion order. *)
Record Model : Type := mkModel {
  m_imageData : option string;
  m_sourceWidth : Q;
  m_sourceHeight : Q;
  m_predictions : list Prediction;
  m_segmentMasks : list SegmentMask;
  m_selectedIndex : option nat;
  m_selectedClass : option string;
  m_listeners : list nat
}.

(** [new CaptureEditModel()]. *)
Definition empty : Model := mkModel None 0 0 [] [] None None [].

(** [s || null] on a string that may be missing. *)
Definition orNull (s : option string) : option string :=
  match s with
  | Some v => if truthy v then Some v else None
  | None => None
  end.

Definition hasImage (m : Model) : bool :=
  match m_imageData m with
  | Some s => negb (Nat.eqb (String.length s) 0)
  | None => false
  end.

Definition hasDetections (m : Model) : bool :=
  negb (Nat.eqb (length (m_predictions m)) 0).

(** [subscribe(fn)]: [Set.add], which keeps a listener that is there. *)
Definition subscribe (m : Model) (fn : nat) : Model :=
  mkModel (m_imageData m) (m_sourceWidth m) (m_sourceHeight m) (m_predictions m)
          (m_segmentMasks m) (m_selectedIndex m) (m_selectedClass m)
          (if existsb (Nat.eqb fn) (m_listeners m) then m_listeners m
           else m_listeners m ++ [fn]).

(** The function [subscribe] returns: [Set.delete]. *)
Definition unsubscribe (m : Model) (fn : nat) : Model :=
  mkModel (m_imageData m) (m_sourceWidth m) (m_sourceHeight m) (m_predictions m)
          (m_segmentMasks m) (m_selectedIndex m) (m_selectedClass m)
          (List.filter (fun g => negb (Nat.eqb fn g)) (m_listeners m)).

(** [_notify()]: the listeners called, in order. *)
Definition notify (m : Model) : list nat := m_listeners m.

(** [findIndex] on the class; the result -1 is [None]. *)
Fixpoint findIndexFrom (i : nat) (cls : string) (l : list Prediction) : option nat :=
  match l with
  | [] => None
  | p :: rest => if String.eqb (class p) cls then Some i
                 else findIndexFrom (S i) cls rest
  end.

Definition findIndex (cls : string) (l : list Prediction) : option nat :=
  findIndexFrom 0 cls l.

Definition setFromCapture (m : Model) (imageData : option string)
    (sourceWidth sourceHeight : Q) (predictions : option (list Prediction))
    (segmentMasks : option (list SegmentMask)) : Model * list nat :=
  let m' := mkModel imageData sourceWidth sourceHeight (default [] predictions)
                    (default [] segmentMasks) None None (m_listeners m) in
  (m', notify m').

Definition loadFromTreasure (m : Model) (treasure : Treasure) : Model * list nat :=
  let savedPreds := default [] (predictions treasure) in
  let selectedClass := orNull (detectedObject treasure) in
  let selectedIndex :=
    match selectedClass with
    | Some cls => if (0 <? length savedPreds)%nat then findIndex cls savedPreds else None
    | None => None
    end in
  let orZero x := match x with Some v => if falsy v then 0%Q else v | None => 0%Q end in
  let m' := mkModel (orNull (capturedImage treasure))
                    (orZero (sourceWidth treasure)) (orZero (sourceHeight treasure))
                    savedPreds (default [] (segmentMasks treasure))
                    selectedIndex selectedClass (m_listeners m) in
  (m', notify m').

Definition clear (m : Model) : Model * list nat :=
  let m' := mkModel None 0 0 [] [] None None (m_listeners m) in
  (m', notify m').

Definition initFromTreasure (m : Model) (treasure : option Treasure) : Model * list nat :=
  match treasure with
  | Some t =>
      match orNull (capturedImage t) with
      | Some _ => loadFromTreasure m t
      | None => clear m
      end
  | None => clear m
  end.

Definition setSelectedIndex (m : Model) (index : option nat) : Model * list nat :=
  let cls :=
    match index with
    | Some i => class <$> (m_predictions m !! i)
    | None => None
    end in
  let m' := mkModel (m_imageData m) (m_sourceWidth m) (m_sourceHeight m) (m_predictions m)
                    (m_segmentMasks m) index cls (m_listeners m) in
  (m', notify m').

Definition setSelectedByClass (m : Model) (objectClass : option string)
    (index : option nat) : Model * list nat :=
  let m' := mkModel (m_imageData m) (m_sourceWidth m) (m_sourceHeight m) (m_predictions m)
                    (m_segmentMasks m) index objectClass (m_listeners m) in
  (m', notify m').

(** What [runDetectionAsync] is handed: the image element (its natural
    size), and the four functions, by what they resolve to. *)
Record Dependencies : Type := mkDependencies {
  dep_model : option Detection.Model;                 (* await loadDetectionModel() *)
  dep_runDetection : Detection.Model -> Image -> Detection.Options -> list Prediction;
  dep_segmentAvailable : option bool;                 (* isSegmentAvailableForClass?.('person') *)
  dep_segmentMasks : Completion (list SegmentMask)    (* await getSegmentMasks(imageElement) *)
}.

(** [s || ...] in a condition, on the image data. *)
Definition hasData (s : option string) : bool :=
  match orNull s with Some _ => true | None => false end.

Definition runDetectionAsync (m : Model) (imageElement : option Image)
    (naturalWidth naturalHeight : Q) (deps : Dependencies) : Model * list nat :=
  match imageElement with
  | None => (m, [])
  | Some image =>
      if negb (hasData (m_imageData m)) then (m, [])
      else
        match dep_model deps with
        | None => (m, [])
        | Some model =>
            let predictions :=
              dep_runDetection deps model image (Detection.mkOptions (Some (3 # 10)%Q)) in
            if Nat.eqb (length predictions) 0 then (m, [])
            else
              let segmentMasks :=
                match dep_segmentAvailable deps with
                | Some true =>
                    match dep_segmentMasks deps with
                    | Returns masks => masks
                    | Throws => []
                    end
                | _ => []
                end in
              let selectedIndex :=
                match orNull (m_selectedClass m) with
                | Some cls => findIndex cls predictions
                | None => None
                end in
              let m' := mkModel (m_imageData m) naturalWidth naturalHeight predictions
                                segmentMasks selectedIndex (m_selectedClass m)
                                (m_listeners m) in
              (m', notify m')
        end
  end.

(** The value [getCapturePayload] returns. *)
Record Payload : Type := mkPayload {
  pl_capturedImage : option string;
  pl_detectedObject : option string;
  pl_predictions : list Prediction;
  pl_segmentMasks : list SegmentMask;
  pl_sourceWidth : Q;
  pl_sourceHeight : Q;
  pl_selectedIndex : option nat
}.

Definition getCapturePayload (m : Model) : Payload :=
  mkPayload (m_imageData m) (m_selectedClass m) (m_predictions m) (m_segmentMasks m)
            (m_sourceWidth m) (m_sourceHeight m) (m_selectedIndex m).

End EditModel.

(** ** src/main.js: score and progress of a game *)

Module GameLoop.
Import JsMath.
Local Open Scope Q_scope.

(** What [loadTreasures()] returns, as far as the game reads it. *)
Record GameData : Type := mkGameData {
  initialScore : option Q;
  scoreDecayPerSecond : option Q;
  items : option (list Main.Treasure)
}.

(** The module-level variables [currentTreasureIndex], [score],
    [isGameActive] and whether [scoreTimer] is set. *)
Record Game : Type := mkGame {
  currentTreasureIndex : nat;
  score : Q;
  isGameActive : bool;
  scoreTimer : bool
}.

(** [x || fallback] on a number that may be missing. *)
Definition orElse (x : option Q) (fallback : Q) : Q :=
  match x with
  | Some v => if falsy v then fallback else v
  | None => fallback
  end.

(** [startGame()], with the timer that [startScoreTimer()] sets. *)
Definition startGame (gameData : GameData) : Game :=
  mkGame 0 (orElse (initialScore gameData) 1000) true true.

(** [initGame]: without treasures no game is started. *)
Definition initGame (gameData : GameData) : option Game :=
  match items gameData with
  | None => None
  | Some [] => None
  | Some _ => Some (startGame gameData)
  end.

(** The callback of the interval that [startScoreTimer] sets; it runs
    only while the timer is set. *)
Definition tick (gameData : GameData) (g : Game) : Game :=
  if scoreTimer g && isGameActive g
  then mkGame (currentTreasureIndex g)
              (score g - orElse (scoreDecayPerSecond gameData) 1)
              (isGameActive g) (scoreTimer g)
  else g.

(** The bonus of a correct answer. *)
Definition bonus (g : Game) : Z := Z.max 10 (floor (score g * (1 # 10))).

Definition handleAnswerSubmit (g : Game) (correct : bool) : Game :=
  if correct
  then mkGame (currentTreasureIndex g) (score g + inject_Z (bonus g))
              (isGameActive g) (scoreTimer g)
  else g.

(** [proceedToNext()], with [showSuccessScreen()] after the last treasure. *)
Definition proceedToNext (gameData : GameData) (g : Game) : Game :=
  let index := S (currentTreasureIndex g) in
  if (length (default [] (items gameData)) <=? index)%nat
  then mkGame index (score g) false false
  else mkGame index (score g) (isGameActive g) (scoreTimer g).

(** What [updateScoreDisplay] and the success screen show. *)
Definition displayedScore (g : Game) : Z := Z.max 0 (floor (score g)).

End GameLoop.

(** ** unnamed/part_004: the store of levels and treasures *)

Module Levels.
Import GameLoop.
Local Open Scope Q_scope.

(** A level as the store writes it.  The scores and the items of a stored
    level may be missing; the store never looks inside a treasure. *)
Record Level : Type := mkLevel {
  level_id : string;
  level_name : string;
  level_order : Q;
  level_initialScore : option Q;
  level_scoreDecayPerSecond : option Q;
  level_items : option (list Main.Treasure)
}.

(** [{ levels, activeLevelId }]. *)
Record Data : Type := mkData {
  levels : list Level;
  activeLevelId : option string
}.

(** What [localStorage.getItem(STORAGE_KEY)] holds, as [loadRaw] tells the
    cases apart: nothing (or the empty string); a text that [JSON.parse] or
    the reads of the parsed value throw on; a root in the legacy format
    (an array [items] and no array [levels]); any other root, with its
    [levels] when they are an array, and its [activeLevelId]. *)
Inductive Stored : Type :=
| Absent
| Broken
| LegacyRoot (initialScore scoreDecayPerSecond : option Q) (items : list Main.Treasure)
| LevelsRoot (levels : option (list Level)) (activeLevelId : option string).

(** The storage: its item, and the data that [setItem] takes without
    throwing. *)
Record LocalStorage : Type := mkLocalStorage {
  item : Stored;
  accepts : Data -> bool
}.

Definition defaultLevelConfig : GameData :=
  mkGameData (Some 1000) (Some 1) (Some []).

Definition loadRaw (st : LocalStorage) : Data :=
  match item st with
  | Absent => mkData [] None
  | Broken => mkData [] None
  | LegacyRoot initialScore scoreDecayPerSecond items =>
      mkData [mkLevel "default"%string "기본"%string 0
                (Some (default 1000 initialScore))
                (Some (default 1 scoreDecayPerSecond))
                (Some items)]
             (Some "default"%string)
  | LevelsRoot levels activeLevelId => mkData (default [] levels) activeLevelId
  end.

(** [saveRaw]: a write that throws is logged and leaves the item as it was. *)
Definition saveRaw (data : Data) (st : LocalStorage) : LocalStorage :=
  if accepts st data
  then mkLocalStorage (LevelsRoot (Some (levels data)) (activeLevelId data)) (accepts st)
  else st.

Definition hasId (id : string) (l : Level) : bool := String.eqb (level_id l) id.

Definition getLevel (id : string) (st : LocalStorage) : option Level :=
  List.find (hasId id) (levels (loadRaw st)).

Definition toLegacyShape (level : Level) : GameData :=
  mkGameData (Some (default 1000 (level_initialScore level)))
             (Some (default 1 (level_scoreDecayPerSecond level)))
             (Some (default [] (level_items level))).

(** The level played when no level is active: the first one of order 0,
    or else the first one. *)
Definition firstLevel (levels : list Level) : option Level :=
  match levels with
  | [] => None
  | l0 :: _ => Some (default l0 (List.find (fun l => Qeq_bool (level_order l) 0) levels))
  end.

Definition getActiveLevel (st : LocalStorage) : option GameData :=
  let data := loadRaw st in
  match activeLevelId data with
  | Some id =>
      if truthy id
      then option_map toLegacyShape (List.find (hasId id) (levels data))
      else option_map toLegacyShape (firstLevel (levels data))
  | None => option_map toLegacyShape (firstLevel (levels data))
  end.

Fixpoint findIndex {A : Type} (f : A -> bool) (l : list A) : option nat :=
  match l with
  | [] => None
  | a :: rest => if f a then Some 0%nat else option_map S (findIndex f rest)
  end.

(** [saveLevel]: a full level object replaces the stored one of its id
    ([{ ...levels[idx], ...level }] is [level] when [level] has every field),
    or is appended. *)
Definition saveLevel (level : Level) (st : LocalStorage) : LocalStorage :=
  let data := loadRaw st in
  let levels' :=
    match findIndex (hasId (level_id level)) (levels data) with
    | Some idx => <[idx := level]> (levels data)
    | None => levels data ++ [level]
    end in
  saveRaw (mkData levels' (activeLevelId data)) st.

(** [createLevel(name)]; [now] is the decimal text of [Date.now()]. *)
Definition createLevel (name : string) (now : string) (st : LocalStorage)
    : Level * LocalStorage :=
  let data := loadRaw st in
  let level := mkLevel (String.append "level-"%string now) name
                 (inject_Z (Z.of_nat (length (levels data))))
                 (Some 1000) (Some 1) (Some []) in
  (level, saveRaw (mkData (levels data ++ [level]) (activeLevelId data)) st).

Definition deleteLevel (id : string) (st : LocalStorage) : LocalStorage :=
  let data := loadRaw st in
  let levels' := List.filter (fun l => negb (hasId id l)) (levels data) in
  let activeLevelId' :=
    match activeLevelId data with
    | Some active =>
        if String.eqb active id then option_map level_id (head levels')
        else Some active
    | None => None
    end in
  saveRaw (mkData levels' activeLevelId') st.

Definition withOrder (level : Level) (order : nat) : Level :=
  mkLevel (level_id level) (level_name level) (inject_Z (Z.of_nat order))
          (level_initialScore level) (level_scoreDecayPerSecond level)
          (level_items level).

(** [new Map(levels.map(l => [l.id, l]))]: a later level of the same id
    replaces an earlier one. *)
Definition byId (levels : list Level) : gmap string Level :=
  fold_left (fun m l => <[level_id l := l]> m) levels ∅.

Definition byOrder (a b : Level) : Q := level_order a - level_order b.

Definition reorderLevels (orderedIds : list string) (st : LocalStorage) : LocalStorage :=
  let data := loadRaw st in
  let found :=
    omap (fun x => x)
         (imap (fun order id => option_map (fun level => withOrder level order)
                                           (byId (levels data) !! id))
               orderedIds) in
  let rest :=
    List.filter (fun l => negb (existsb (String.eqb (level_id l)) orderedIds))
                (levels data) in
  saveRaw (mkData (Detection.sortBy byOrder (found ++ rest)) (activeLevelId data)) st.

Definition setActiveLevelId (id : option string) (st : LocalStorage) : LocalStorage :=
  saveRaw (mkData (levels (loadRaw st)) id) st.

Definition loadTreasures (st : LocalStorage) : GameData :=
  default defaultLevelConfig (getActiveLevel st).

(** [a ?? b] on a value that may be missing on both sides. *)
Definition orKeep {A : Type} (a b : option A) : option A :=
  match a with
  | Some v => Some v
  | None => b
  end.

(** The two branches of [saveTreasures]. *)
Definition saveIntoNew (legacy : GameData) (now : string) (st : LocalStorage)
    : LocalStorage :=
  let (newLevel, st1) := createLevel "기본"%string now st in
  let st2 :=
    saveLevel (mkLevel (level_id newLevel) (level_name newLevel) 0
                 (Some (default 1000 (initialScore legacy)))
                 (Some (default 1 (scoreDecayPerSecond legacy)))
                 (Some (default [] (items legacy))))
              st1 in
  saveRaw (mkData (levels (loadRaw st2)) (Some (level_id newLevel))) st2.

Definition saveInto (targetId : string) (legacy : GameData) (st : LocalStorage)
    : LocalStorage :=
  match getLevel targetId st with
  | Some level =>
      saveLevel (mkLevel (level_id level) (level_name level) (level_order level)
                   (orKeep (initialScore legacy) (level_initialScore level))
                   (orKeep (scoreDecayPerSecond legacy) (level_scoreDecayPerSecond level))
                   (orKeep (items legacy) (level_items level)))
                st
  | None => st
  end.

Definition saveTreasures (legacy : GameData) (now : string) (st : LocalStorage)
    : LocalStorage :=
  let data := loadRaw st in
  let targetId := orKeep (activeLevelId data) (option_map level_id (head (levels data))) in
  match targetId with
  | Some id => if truthy id then saveInto id legacy st else saveIntoNew legacy now st
  | None => saveIntoNew legacy now st
  end.

Definition clearTreasures (st : LocalStorage) : LocalStorage :=
  saveRaw (mkData [] None) st.

End Levels.

(** * Vocabulary of the properties *)

Module Vocabulary.
Import Detection SegmentHelper CaptureEditModel.

Section Boxes.
Local Open Scope Q_scope.

(** The intermediate values of [iouOf], named. *)
Definition interWidth (a b : Box) : Q :=
  Qmax 0 (Qmin (box_x a + box_w a) (box_x b + box_w b) - Qmax (box_x a) (box_x b)).
Definition interHeight (a b : Box) : Q :=
  Qmax 0 (Qmin (box_y a + box_h a) (box_y b + box_h b) - Qmax (box_y a) (box_y b)).


(** The source point lies in the closed box. *)
Definition inBox (p : Point) (b : Box) : Prop :=
  box_x b <= px p /\ px p <= box_x b + box_w b
  /\ box_y b <= py p /\ py p <= box_y b + box_h b.

(** The boxes of the example of the specification. *)
Definition boxA : Box := mkBox 0 0 100 100.
Definition boxB : Box := mkBox 10 10 20 20.

End Boxes.

Section Masks.
Local Open Scope Z_scope.

(** The pixel (x, y) of a mask of row length [w] has alpha above 128. *)
Definition lit (idata : ImageData) (w x y : Z) : bool :=
  above128 (byteAt idata ((y * w + x) * 4 + 3)).

(** [s'] has grown from [s]: the extent only widens and a found pixel
    stays found. *)
Definition grows (s s' : Scan) : Prop :=
  minX s' <= minX s /\ maxX s <= maxX s'
  /\ minY s' <= minY s /\ maxY s <= maxY s'
  /\ (hasPixel s = true -> hasPixel s' = true).

(** If (x, y) is lit, the scan has recorded a pixel and its extent
    contains (x, y). *)
Definition covers (idata : ImageData) (w : Z) (s : Scan) (x y : Z) : Prop :=
  lit idata w x y = true ->
  hasPixel s = true /\ minX s <= x <= maxX s /\ minY s <= y <= maxY s.

(** Each side of the extent touches a lit pixel of the mask. *)
Definition tight (idata : ImageData) (W H : Z) (s : Scan) : Prop :=
  (exists y, 0 <= y < H /\ lit idata W (minX s) y = true)
  /\ (exists y, 0 <= y < H /\ lit idata W (maxX s) y = true)
  /\ (exists x, 0 <= x < W /\ lit idata W x (minY s) = true)
  /\ (exists x, 0 <= x < W /\ lit idata W x (maxY s) = true).

(** The state of the scan: untouched, or a non-empty extent within the
    mask that is tight. *)
Definition scanned (idata : ImageData) (W H : Z) (s : Scan) : Prop :=
  if hasPixel s
  then 0 <= minX s <= maxX s /\ maxX s < W
       /\ 0 <= minY s <= maxY s /\ maxY s < H
       /\ tight idata W H s
  else s = mkScan W H 0 0 false.

(** What a box returned by [maskToBbox] is: the extent
    [x0 .. x0 + bw - 1] by [y0 .. y0 + bh - 1], non-empty, within the
    mask, containing every lit pixel and touching one on each side. *)
Definition tightBox (idata : ImageData) (W H x0 y0 bw bh : Z) : Prop :=
  0 <= x0 /\ 1 <= bw /\ x0 + bw <= W
  /\ 0 <= y0 /\ 1 <= bh /\ y0 + bh <= H
  /\ (forall x y, 0 <= x < W -> 0 <= y < H -> lit idata W x y = true ->
        x0 <= x < x0 + bw /\ y0 <= y < y0 + bh)
  /\ (exists y, 0 <= y < H /\ lit idata W x0 y = true)
  /\ (exists y, 0 <= y < H /\ lit idata W (x0 + bw - 1) y = true)
  /\ (exists x, 0 <= x < W /\ lit idata W x y0 = true)
  /\ (exists x, 0 <= x < W /\ lit idata W x (y0 + bh - 1) = true).

End Masks.

Section Matching.
Local Open Scope Q_scope.

(** Mask [j] is claimed by a detection before detection [i]. *)
Definition claimedBefore (m : gmap nat nat) (i j : nat) : Prop :=
  exists k, (k < i)%nat /\ m !! k = Some j.

(** Mask [j] is an unclaimed mask of best IoU for detection [i], and that
    IoU exceeds 0.2. *)
Definition bestUnclaimed (predictions : list Prediction)
    (segmentMasks : list SegmentMask) (m : gmap nat nat) (i j : nat) : Prop :=
  exists p sm,
    predictions !! i = Some p /\ segmentMasks !! j = Some sm
    /\ ~ claimedBefore m i j
    /\ 2 # 10 < iouOf (bbox p) (mask_bbox sm)
    /\ forall j' sm', segmentMasks !! j' = Some sm' -> ~ claimedBefore m i j' ->
          iouOf (bbox p) (mask_bbox sm') <= iouOf (bbox p) (mask_bbox sm).

(** Some unclaimed mask has an IoU above 0.2 with detection [i]. *)
Definition someUnclaimedAbove (predictions : list Prediction)
    (segmentMasks : list SegmentMask) (m : gmap nat nat) (i : nat) : Prop :=
  exists p j sm,
    predictions !! i = Some p /\ segmentMasks !! j = Some sm
    /\ ~ claimedBefore m i j
    /\ 2 # 10 < iouOf (bbox p) (mask_bbox sm).

(** What the inner loop has found after the masks [l]. *)
Definition bestSoFar (used : gset nat) (box : Box) (l : list SegmentMask)
    (acc : option nat * Q) : Prop :=
  0 <= acc.2
  /\ (forall j sm, l !! j = Some sm -> j ∉ used -> iouOf box (mask_bbox sm) <= acc.2)
  /\ match acc.1 with
     | None => acc.2 = 0
     | Some j => exists sm, l !! j = Some sm /\ (j ∉ used)
                           /\ acc.2 = iouOf box (mask_bbox sm) /\ 0 < acc.2
     end.

(** What the outer loop has built after the first [i] detections. *)
Definition matchedUpTo (predictions : list Prediction)
    (segmentMasks : list SegmentMask) (i : nat)
    (m : gmap nat nat) (used : gset nat) : Prop :=
  (forall k j, m !! k = Some j -> (k < i)%nat)
  /\ (forall j, j ∈ used <-> exists k, m !! k = Some j)
  /\ (forall k1 k2 j, m !! k1 = Some j -> m !! k2 = Some j -> k1 = k2)
  /\ (forall k j, m !! k = Some j -> bestUnclaimed predictions segmentMasks m k j)
  /\ (forall k, (k < i)%nat -> m !! k = None ->
        ~ someUnclaimedAbove predictions segmentMasks m k).

End Matching.

Section Vectors.
Local Open Scope R_scope.

(** The dot product of two vectors, the sum of squares of one, and the
    cosine of the angle between two. *)
Fixpoint dotProduct (a b : list R) : R :=
  match a, b with
  | x :: a', y :: b' => x * y + dotProduct a' b'
  | _, _ => 0
  end.

Definition sumSquares (v : list R) : R := dotProduct v v.


End Vectors.

End Vocabulary.
Import Vocabulary.

(** * Concrete inputs *)

Module Fixtures.
Import Detection SegmentHelper CaptureEditModel.

(** A 2 x 2 mask whose only pixel with alpha above 128 is (1, 0). *)
Definition mask2x2 : ImageData :=
  mkImageData [0; 0; 0; 0;  0; 0; 0; 255;
               0; 0; 0; 0;  0; 0; 0; 0]%Z.

Definition person0 : Segmentation :=
  mkSegmentation (Some (MaskWithToImageData (Returns (Some mask2x2)))).

Definition segmenter0 : Segmenter :=
  mkSegmenter (Some (fun _ _ => Returns (Some [person0]))).

(** The segmentation script is loaded and offers BodyPix. *)
Definition win0 : Window :=
  mkWindow (Some (mkBodySegmentation true false (fun _ => Returns segmenter0))).

(** Nothing loaded yet, and after the first load. *)
Definition loader0 : Loader := mkLoader None None.
Definition loader1 : Loader := mkLoader (Some segmenter0) (Some (Some segmenter0)).

Definition image2x2 : Image := mkImage (Some 2%Z) None None (Some 2%Z) None None.

(** A 2 x 2 view of the 2 x 2 frame at the origin. *)
Definition rect2x2 : DOMRect := mkRect 0 0 2 2.

(** A cup whose box covers the whole frame, and a far less certain chair. *)
Definition cup : Prediction := mkPrediction "cup" (mkBox 0 0 2 2) (Some (9 # 10)).
Definition chair : Prediction := mkPrediction "chair" (mkBox 0 0 1 1) (Some (2 # 10)).

Definition model0 : Detection.Model :=
  mkModel (Some (fun _ => Returns (Some [cup; chair]))).

(** A person over the whole frame, seen with confidence 0.9. *)
Definition person : Prediction := mkPrediction "person" (mkBox 0 0 2 2) (Some (9 # 10)).

Definition personModel : Detection.Model :=
  mkModel (Some (fun _ => Returns (Some [person]))).

(** A treasure that is a person with a stored reference embedding. *)
Definition grandma : Main.Treasure :=
  Main.mkTreasure (Some "person"%string) (Some [1; 0]%R) None.

(** A 2 x 2 video with the detector at hand and no segmentation script;
    the candidate crop embeds to the reference direction. *)
Definition gameEnv : Main.Env :=
  Main.mkEnv (Some grandma) rect2x2 2 2 true (Some personModel) (Returns None)
             (mkWindow None) (fun _ _ _ _ => Returns [1; 0]%R).

Definition tap : option Main.ClickEvent := Some (Main.mkClickEvent (Some 1%Q) (Some 1%Q)).

(** Two detections over one mask: the first fits it exactly, the second
    overlaps it by half. *)
Definition twoPredictions : list Prediction :=
  [mkPrediction "person" (mkBox 0 0 2 2) (Some (9 # 10));
   mkPrediction "person" (mkBox 1 0 2 2) (Some (8 # 10))].

Definition oneMask : list SegmentMask := [mkSegmentMask mask2x2 (mkBox 0 0 2 2)].

End Fixtures.
Import Fixtures.

(** * Vocabulary and inputs of the further properties *)

Module Further.
Import Detection SegmentHelper CaptureEditModel Viewers Main.

(** A run of [render] calls, one per given container size, and the
    frames it requests. *)
Fixpoint renderAll (v : OverlayView) (sizes : list (Z * Z))
    : OverlayView * list RenderEffect :=
  match sizes with
  | [] => (v, [])
  | (cw, ch) :: rest =>
      let (v1, e1) := render v cw ch in
      let (v2, e2) := renderAll v1 rest in
      (v2, e1 ++ e2)
  end.


Definition framesRequested (effects : list RenderEffect) : nat :=
  length (List.filter (fun e => match e with RequestAnimationFrame => true | _ => false end)
                      effects).



(** The mask index a draw item uses, if it is drawn as a mask. *)
Definition segmentIdxOf (it : DrawItem) : option nat :=
  match item_shape it with
  | SegmentShape j _ => Some j
  | BoxShape _ _ _ _ => None
  end.


(** The overlay options of the live view: a 640 x 480 source shown
    320 x 240 with the threshold 0.5. *)
Definition liveOptions : DrawOptions :=
  mkDrawOptions (Some 640%Q) (Some 480%Q) (Some 320%Q) (Some 240%Q) (Some (5 # 10)%Q) false.

(** A fresh contain-fit view of a 640 x 480 source, and seventy renders
    before layout. *)
Definition freshView : OverlayView :=
  mkOverlayView true Contain 640 480 [] [] None false 0.

Definition notLaidOut : list (Z * Z) := repeat (0%Z, 0%Z) 70.

Section Gameplay.
Import Main.

(** The detector [tryFindTreasure] ends up with, and what loading it
    adds to the trace. *)
Definition resolvedModel (env : Env) : Completion (list Event * option Model) :=
  match storedModel env with
  | Some m => Returns ([], Some m)
  | None =>
      match loadDetectionModel env with
      | Returns (Some m) => Returns ([SetDetectionModel], Some m)
      | Returns None => Returns ([], None)
      | Throws => Throws
      end
  end.

(** A game whose treasure is a person without a stored embedding. *)
Definition plainEnv : Env :=
  mkEnv (Some (mkTreasure (Some "person"%string) None None)) rect2x2 2 2 true
        (Some personModel) (Returns None) (SegmentHelper.mkWindow None)
        (fun _ _ _ _ => Throws).

(** The game of the fixtures when the embedder has no TensorFlow and
    returns the empty vector. *)
Definition emptyEnv : Env :=
  mkEnv (Some grandma) rect2x2 2 2 true (Some personModel) (Returns None)
        (SegmentHelper.mkWindow None) (fun _ _ _ _ => Returns []).

End Gameplay.

End Further.
Import Further.

(** ** Vocabulary for the capture-edit model *)

Module EditModelVocabulary.
Import CaptureEditModel EditModel.

(** The treasure that holds the values of a payload. *)
Definition asTreasure (pl : Payload) : Treasure :=
  mkTreasure (pl_capturedImage pl) (Some (pl_sourceWidth pl)) (Some (pl_sourceHeight pl))
             (Some (pl_predictions pl)) (Some (pl_segmentMasks pl)) (pl_detectedObject pl).

(** The selection points at the first detection of the selected class,
    and at nothing only when there is no detection of that class. *)
Definition selectsFirstOfClass (m : Model) : Prop :=
  match m_selectedIndex m with
  | Some i =>
      exists p cls,
        orNull (m_selectedClass m) = Some cls
        /\ m_predictions m !! i = Some p /\ class p = cls
        /\ forall j q, (j < i)%nat -> m_predictions m !! j = Some q -> class q <> cls
  | None =>
      forall cls q, orNull (m_selectedClass m) = Some cls ->
                    In q (m_predictions m) -> class q <> cls
  end.

(** What a client does to a model. *)
Inductive Action : Type :=
| Subscribe (fn : nat)
| Unsubscribe (fn : nat)
| SetFromCapture (imageData : option string) (sourceWidth sourceHeight : Q)
    (predictions : option (list Prediction)) (segmentMasks : option (list SegmentMask))
| InitFromTreasure (treasure : option Treasure)
| LoadFromTreasure (treasure : Treasure)
| RunDetectionAsync (imageElement : option Image) (naturalWidth naturalHeight : Q)
    (deps : Dependencies)
| SetSelectedIndex (index : option nat)
| SetSelectedByClass (objectClass : option string) (index : option nat)
| Clear.

(** One action: the model after it and the listeners it has called. *)
Definition act (m : Model) (a : Action) : Model * list nat :=
  match a with
  | Subscribe fn => (subscribe m fn, [])
  | Unsubscribe fn => (unsubscribe m fn, [])
  | SetFromCapture i w h p s => setFromCapture m i w h p s
  | InitFromTreasure t => initFromTreasure m t
  | LoadFromTreasure t => loadFromTreasure m t
  | RunDetectionAsync i w h d => runDetectionAsync m i w h d
  | SetSelectedIndex i => setSelectedIndex m i
  | SetSelectedByClass c i => setSelectedByClass m c i
  | Clear => clear m
  end.

(** A run of actions: the model after it and the calls of each action. *)
Fixpoint run (m : Model) (actions : list Action) : Model * list (list nat) :=
  match actions with
  | [] => (m, [])
  | a :: rest =>
      let (m1, called) := act m a in
      let (m2, calls) := run m1 rest in
      (m2, called :: calls)
  end.

(** Whether [fn] is subscribed after the actions, having been so or not
    before them: its last [Subscribe] or [Unsubscribe] decides. *)
Definition subscribedAfter (fn : nat) (before : bool) (actions : list Action) : bool :=
  fold_left (fun b a =>
               match a with
               | Subscribe g => if Nat.eqb g fn then true else b
               | Unsubscribe g => if Nat.eqb g fn then false else b
               | _ => b
               end) actions before.

(** A stored treasure with two persons, the selected class being person. *)
Definition twoPersons : Treasure :=
  mkTreasure (Some "data:image/jpeg;base64,AAAA"%string) (Some 640%Q) (Some 480%Q)
             (Some [mkPrediction "cup" (mkBox 0 0 10 10) (Some (9 # 10)%Q);
                    mkPrediction "person" (mkBox 0 0 20 20) (Some (9 # 10)%Q);
                    mkPrediction "person" (mkBox 30 0 20 20) (Some (8 # 10)%Q)])
             None (Some "person"%string).

End EditModelVocabulary.
Import EditModelVocabulary.

(** ** Vocabulary for the game loop *)

Module GameVocabulary.
Import GameLoop.
Local Open Scope Q_scope.

(** What happens during a game: the timer fires, the riddle component
    reports an answer, the game moves on to the next treasure. *)
Inductive GameEvent : Type :=
| Tick
| Answer (correct : bool)
| Proceed.

Definition step (gameData : GameData) (g : Game) (e : GameEvent) : Game :=
  match e with
  | Tick => tick gameData g
  | Answer correct => handleAnswerSubmit g correct
  | Proceed => proceedToNext gameData g
  end.

Definition play (gameData : GameData) (g : Game) (events : list GameEvent) : Game :=
  fold_left (step gameData) events g.

Definition isProceed (e : GameEvent) : bool :=
  match e with Proceed => true | _ => false end.



Definition count (f : GameEvent -> bool) (events : list GameEvent) : nat :=
  length (List.filter f events).

Definition treasures (gameData : GameData) : list Main.Treasure :=
  default [] (items gameData).



(** A game over two treasures that starts at 50 points and loses 2 a second. *)
Definition twoTreasures : GameData :=
  mkGameData (Some 50) (Some 2) (Some [grandma; grandma]).

End GameVocabulary.

Import GameVocabulary.

(** ** Vocabulary for the levels store *)

Module LevelsVocabulary.
Import GameLoop Levels.
Local Open Scope Q_scope.

(** A storage that takes every write. *)
Definition hasRoom (st : LocalStorage) : Prop := forall d, accepts st d = true.

Definition roomy (it : Stored) : LocalStorage := mkLocalStorage it (fun _ => true).

(** The fields of [legacy] that are given, over those of [before]. *)
Definition merged (legacy before : GameData) : GameData :=
  mkGameData (orKeep (initialScore legacy) (initialScore before))
             (orKeep (scoreDecayPerSecond legacy) (scoreDecayPerSecond before))
             (orKeep (items legacy) (items before)).

(** The active level id names a stored level. *)
Definition activeStored (st : LocalStorage) : Prop :=
  exists id level,
    activeLevelId (loadRaw st) = Some id /\ truthy id = true /\ getLevel id st = Some level.

(** The active level id names no stored level. *)
Definition activeDangling (st : LocalStorage) : Prop :=
  exists id,
    activeLevelId (loadRaw st) = Some id /\ truthy id = true /\ getLevel id st = None.

Definition emptyStore (st : LocalStorage) : Prop :=
  levels (loadRaw st) = [] /\ activeLevelId (loadRaw st) = None.

Definition levelA : Level :=
  mkLevel "a"%string "first"%string 0 (Some 500) None (Some [grandma]).

Definition levelB : Level :=
  mkLevel "b"%string "second"%string 1 None (Some 3) None.

Definition twoLevels : LocalStorage :=
  roomy (LevelsRoot (Some [levelA; levelB]) (Some "b"%string)).

Definition danglingStore : LocalStorage :=
  roomy (LevelsRoot (Some [levelA]) (Some "gone"%string)).

Definition newGame : GameData := mkGameData (Some 70) None (Some [grandma; grandma]).

End LevelsVocabulary.

Import LevelsVocabulary.

(** * Properties *)

(** ** Comparisons of the number model *)

Section Comparisons.
Local Open Scope Q_scope.

Lemma falsy_true (x : Q) : falsy x = true <-> x == 0.
Proof. unfold falsy. apply Qeq_bool_iff. Qed.

Lemma falsy_false (x : Q) : falsy x = false <-> ~ x == 0.
Proof.
  rewrite <- falsy_true. destruct (falsy x); split; congruence.
Qed.

Lemma leb_true (a b : Q) : leb a b = true <-> a <= b.
Proof. unfold leb. apply Qle_bool_iff. Qed.

Lemma leb_false (a b : Q) : leb a b = false <-> b < a.
Proof.
  split; intros H.
  - apply Qnot_le_lt. intros Hle. apply leb_true in Hle. congruence.
  - destruct (leb a b) eqn:E; [|reflexivity].
    apply leb_true in E. exfalso. apply (Qlt_not_le _ _ H E).
Qed.

Lemma ltb_true (a b : Q) : ltb a b = true <-> a < b.
Proof.
  unfold ltb. rewrite negb_true_iff. apply leb_false.
Qed.

Lemma ltb_false (a b : Q) : ltb a b = false <-> b <= a.
Proof.
  unfold ltb. rewrite negb_false_iff. apply leb_true.
Qed.

End Comparisons.

(** ** Coordinate mapper and contain fit *)

Section Geometry.
Local Open Scope Q_scope.
Import Detection CaptureEditModel.


Lemma clientToSource_degenerate rect sw sh cx cy :
  rect_width rect == 0 \/ rect_height rect == 0 ->
  clientToSource rect sw sh cx cy = mkPoint 0 0.
Proof.
  intros H. unfold clientToSource.
  destruct H as [H|H]; apply falsy_true in H; rewrite H;
    [reflexivity | rewrite orb_true_r; reflexivity].
Qed.





End Geometry.

(** ** Intersection over union *)

Section IoU.
Local Open Scope Q_scope.
Import CaptureEditModel.






Lemma interWidth_nonneg a b : 0 <= interWidth a b.
Proof. apply Q.le_max_l. Qed.

Lemma interHeight_nonneg a b : 0 <= interHeight a b.
Proof. apply Q.le_max_l. Qed.









End IoU.

(** ** Detector adapter and tap resolver *)

Section TapResolver.
Local Open Scope Q_scope.
Import Detection.

Lemma containsPoint_inBox p b : containsPoint p b = true <-> inBox p b.
Proof.
  unfold containsPoint, inBox. rewrite !andb_true_iff, !leb_true. tauto.
Qed.

Lemma insertBy_not_nil {A} (cmp : A -> A -> Q) a l : insertBy cmp a l <> [].
Proof. destruct l as [|b l]; cbn; [|destruct (leb (cmp a b) 0)]; discriminate. Qed.

Lemma sortBy_nil_inv {A} (cmp : A -> A -> Q) l : sortBy cmp l = [] -> l = [].
Proof.
  destruct l as [|a l]; [reflexivity|]. intros H.
  exfalso. exact (insertBy_not_nil cmp a (sortBy cmp l) H).
Qed.

(** The first element of a list sorted by the difference of a key is one
    of its elements and has the least key. *)
Lemma sortBy_head_least {A} (key : A -> Q) (l : list A) h t :
  sortBy (fun a b => key a - key b) l = h :: t ->
  In h l /\ forall q, In q l -> key h <= key q.
Proof.
  revert h t. induction l as [|a l IH]; intros h t H; [discriminate|].
  change (insertBy (fun a b => key a - key b) a
            (sortBy (fun a b => key a - key b) l) = h :: t) in H.
  destruct (sortBy (fun a b => key a - key b) l) as [|b rest] eqn:E.
  - apply sortBy_nil_inv in E. subst l. cbn in H. injection H as <- _.
    split; [left; reflexivity|]. intros q [<-|[]]. apply Qle_refl.
  - destruct (IH b rest eq_refl) as [Hin Hmin]. cbn in H.
    destruct (leb (key a - key b) 0) eqn:C.
    + injection H as <- _. apply leb_true in C.
      split; [left; reflexivity|].
      intros q [<-|Hq]; [apply Qle_refl|]. specialize (Hmin q Hq). lra.
    + injection H as <- _. apply leb_false in C.
      split; [right; exact Hin|].
      intros q [<-|Hq]; [lra | exact (Hmin q Hq)].
Qed.

Lemma pickAtClient_regular rect sw sh cx cy preds :
  ~ rect_width rect == 0 -> ~ rect_height rect == 0 ->
  pickAtClient rect sw sh cx cy preds =
    match sortBy (fun a b => area a - area b)
                 (List.filter (fun d => containsPoint (clientToSource rect sw sh cx cy)
                                                      (bbox d)) preds) with
    | hit :: _ => Some (mkPick (class hit) (bbox hit))
    | [] => None
    end.
Proof.
  intros Hw Hh. unfold pickAtClient.
  apply falsy_false in Hw, Hh. rewrite Hw, Hh. cbn [orb].
  destruct preds; reflexivity.
Qed.

Lemma containsPoint_15 p b :
  px p == 15 -> py p == 15 -> containsPoint p b = containsPoint (mkPoint 15 15) b.
Proof.
  intros Hx Hy. unfold containsPoint, leb. cbn [px py]. rewrite Hx, Hy. reflexivity.
Qed.

(** C2. For a view rectangle of non-zero width and height, [pickAtClient]
    returns one of the detections whose box contains the mapped source
    point, of least area [w * h] among them, and [null] when no box
    contains the point; with the boxes A = [0,0,100,100] and
    B = [10,10,20,20], in either order, and a tap that maps to (15, 15),
    it returns B. *)
Theorem pickAtClient_smallest_box (rect : DOMRect) (sw sh cx cy : Q) :
  ~ rect_width rect == 0 -> ~ rect_height rect == 0 ->
  let p := clientToSource rect sw sh cx cy in
  (forall preds,
     match pickAtClient rect sw sh cx cy preds with
     | Some r =>
         exists d, In d preds /\ r = mkPick (class d) (bbox d)
                   /\ inBox p (bbox d)
                   /\ forall q, In q preds -> inBox p (bbox q) -> area d <= area q
     | None => forall q, In q preds -> ~ inBox p (bbox q)
     end)
  /\ (px p == 15 -> py p == 15 ->
      forall clsA clsB sA sB,
        pickAtClient rect sw sh cx cy
          [mkPrediction clsA boxA sA; mkPrediction clsB boxB sB]
          = Some (mkPick clsB boxB)
        /\ pickAtClient rect sw sh cx cy
          [mkPrediction clsB boxB sB; mkPrediction clsA boxA sA]
          = Some (mkPick clsB boxB)).
Proof.
  intros Hw Hh p. split.
  - intros preds. rewrite pickAtClient_regular by assumption. fold p.
    set (hits := List.filter (fun d => containsPoint p (bbox d)) preds).
    destruct (sortBy (fun a b => area a - area b) hits) as [|hit rest] eqn:E.
    + apply sortBy_nil_inv in E. intros q Hq Hin.
      apply containsPoint_inBox in Hin.
      assert (Hf : In q hits) by (apply filter_In; split; assumption).
      rewrite E in Hf. exact Hf.
    + apply (sortBy_head_least area) in E. destruct E as [Hin Hmin].
      apply filter_In in Hin. destruct Hin as [Hin Hc].
      exists hit. split; [exact Hin|]. split; [reflexivity|].
      split; [apply containsPoint_inBox; exact Hc|].
      intros q Hq Hb. apply Hmin. apply filter_In.
      split; [exact Hq | apply containsPoint_inBox; exact Hb].
  - intros Hx Hy clsA clsB sA sB.
    rewrite !pickAtClient_regular by assumption. fold p.
    cbn [List.filter bbox]. rewrite !(containsPoint_15 p _ Hx Hy).
    split; reflexivity.
Qed.

(** The example at a concrete view: a 100 x 100 view of a 100 x 100
    frame, tapped at (15, 15). *)
Lemma pickAtClient_smallest_box_witness :
  pickAtClient (mkRect 0 0 100 100) 100 100 15 15
    [mkPrediction "person" boxA None; mkPrediction "cup" boxB None]
  = Some (mkPick "cup" boxB).
Proof.
  destruct (pickAtClient_smallest_box (mkRect 0 0 100 100) 100 100 15 15)
    as [_ H]; [discriminate | discriminate |].
  destruct (H ltac:(reflexivity) ltac:(reflexivity) "person"%string "cup"%string None None)
    as [H1 _].
  exact H1.
Defined.

(** C8. With a model whose [detect] is a function that returns, the
    detections are the raw predictions, in order, whose score (0 when
    missing) is at least the threshold (0 when unset), so that nothing
    is dropped when the threshold is unset and no score is negative; the
    result is the empty list when [detect] throws, when it returns
    [null], when the model is missing and when [detect] is not a
    function. *)
Theorem runDetection_spec (model : option Model) (image : Image) (opts : Options) :
  (forall m run raw,
     model = Some m -> detect m = Some run -> run image = Returns (Some raw) ->
     runDetection model image opts
       = List.filter (fun p => leb (default 0 (scoreThreshold opts))
                                   (default 0 (score p))) raw
     /\ (forall p, In p (runDetection model image opts) <->
                   In p raw /\ default 0 (scoreThreshold opts) <= default 0 (score p))
     /\ (scoreThreshold opts = None ->
         (forall p s, In p raw -> score p = Some s -> 0 <= s) ->
         runDetection model image opts = raw))
  /\ (forall m run,
     model = Some m -> detect m = Some run ->
     run image = Throws \/ run image = Returns None ->
     runDetection model image opts = [])
  /\ (model = None \/ (exists m, model = Some m /\ detect m = None) ->
     runDetection model image opts = []).
Proof.
  split; [|split].
  - intros m run raw -> Hd Hr. unfold runDetection. rewrite Hd, Hr. cbn [default].
    split; [reflexivity|]. split.
    + intros p. rewrite filter_In, leb_true. reflexivity.
    + intros Hnone Hpos. rewrite Hnone. cbn [default].
      apply forallb_filter_id. apply forallb_forall. intros p Hp.
      apply leb_true. destruct (score p) as [s|] eqn:Es; cbn [default].
      * exact (Hpos p s Hp Es).
      * apply Qle_refl.
  - intros m run -> Hd [Hr|Hr]; unfold runDetection; rewrite Hd, Hr; reflexivity.
  - intros [->|(m & -> & Hd)]; unfold runDetection; [|rewrite Hd]; reflexivity.
Qed.

(** Of a confident cup and a doubtful chair, a threshold of 0.5 keeps the cup. *)
Lemma runDetection_spec_witness :
  runDetection (Some model0) image2x2 (mkOptions (Some (1 # 2))) = [cup].
Proof.
  destruct (runDetection_spec (Some model0) image2x2 (mkOptions (Some (1 # 2))))
    as [H _].
  destruct (H model0 (fun _ => Returns (Some [cup; chair])) [cup; chair]
              eq_refl eq_refl eq_refl) as [H1 _].
  rewrite H1. reflexivity.
Defined.

Lemma isSegmentAvailableForClass_truthy win cls :
  SegmentHelper.isSegmentAvailableForClass win cls = true -> truthy cls = true.
Proof.
  unfold SegmentHelper.isSegmentAvailableForClass. intros H.
  apply andb_true_iff in H. destruct H as [H _].
  apply String.eqb_eq in H. subst cls. reflexivity.
Qed.

(** C1. When [targetClass] is a class for which segmentation is available
    and the mask hit test at the mapped source point succeeds,
    [pickDetectionAt] returns [{ class: targetClass, bbox }] with the box
    derived from the mask, whatever the predictions are; when
    [targetClass] is [null], or segmentation is not available for it, or
    the mask hit test misses, it returns what box hit-testing returns. *)
Theorem pickDetectionAt_mask_first
    (win : SegmentHelper.Window) (st : SegmentHelper.Loader) (image : Image)
    (rect : DOMRect) (sw sh cx cy : Q) (preds : list Prediction)
    (targetClass : option string) :
  let p := clientToSource rect sw sh cx cy in
  (forall cls hit st',
     targetClass = Some cls ->
     SegmentHelper.isSegmentAvailableForClass win cls = true ->
     SegmentHelper.getSegmentHitAndBbox win st image (px p) (py p) = (Some hit, st') ->
     pickDetectionAt win st image rect sw sh cx cy preds targetClass
       = (Some (mkPick cls (SegmentHelper.hit_bbox hit)), st'))
  /\ (targetClass = None
      \/ (exists cls, targetClass = Some cls
                      /\ SegmentHelper.isSegmentAvailableForClass win cls = false)
      \/ fst (SegmentHelper.getSegmentHitAndBbox win st image (px p) (py p)) = None ->
      fst (pickDetectionAt win st image rect sw sh cx cy preds targetClass)
        = pickAtClient rect sw sh cx cy preds).
Proof.
  intros p. split.
  - intros cls hit st' -> Ha Hh. unfold pickDetectionAt. fold p.
    rewrite (isSegmentAvailableForClass_truthy _ _ Ha), Ha, Hh. reflexivity.
  - intros H. unfold pickDetectionAt. fold p.
    destruct targetClass as [cls|]; [|reflexivity].
    destruct (truthy cls && SegmentHelper.isSegmentAvailableForClass win cls) eqn:E;
      [|reflexivity].
    destruct (SegmentHelper.getSegmentHitAndBbox win st image (px p) (py p))
      as [[hit|] st'] eqn:Eh; [|reflexivity].
    exfalso. apply andb_true_iff in E. destruct E as [_ E].
    destruct H as [H|[(c & [= <-] & H)|H]]; [discriminate | congruence | discriminate].
Qed.

(** A tap on the only lit pixel of the mask, inside the box of the cup:
    the person is returned with the box of the mask. *)
Lemma pickDetectionAt_mask_first_witness :
  pickDetectionAt win0 loader0 image2x2 rect2x2 2 2 (3 # 2) (1 # 2) [cup]
    (Some "person"%string)
  = (Some (mkPick "person" (mkBox 1 0 1 1)), loader1).
Proof.
  destruct (pickDetectionAt_mask_first win0 loader0 image2x2 rect2x2 2 2
              (3 # 2) (1 # 2) [cup] (Some "person"%string)) as [H _].
  exact (H "person"%string (SegmentHelper.mkSegmentHit (mkBox 1 0 1 1) 0) loader1
           eq_refl eq_refl eq_refl).
Defined.

End TapResolver.

(** ** Mask scan and mask hit test *)

Section MaskScan.
Local Open Scope Z_scope.
Import SegmentHelper.

Lemma in_upto n x : In x (upto n) <-> 0 <= x < n.
Proof.
  unfold upto. rewrite in_map_iff. split.
  - intros (k & <- & Hk). apply in_seq in Hk. lia.
  - intros H. exists (Z.to_nat x). split; [lia|]. apply in_seq. lia.
Qed.

(** A loop keeps what every step keeps. *)
Lemma fold_left_keeps {A B} (f : A -> B -> A) (P : A -> Prop) (R : B -> Prop) l :
  (forall a b, P a -> R b -> P (f a b)) ->
  (forall b, In b l -> R b) ->
  forall a, P a -> P (fold_left f l a).
Proof.
  intros Hstep. induction l as [|b l IH]; intros HR a Ha; [exact Ha|].
  cbn. apply IH.
  - intros c Hc. apply HR. right. exact Hc.
  - apply Hstep; [exact Ha | apply HR; left; reflexivity].
Qed.

Lemma grows_refl s : grows s s.
Proof. unfold grows. repeat split; try lia. tauto. Qed.

Lemma grows_trans s1 s2 s3 : grows s1 s2 -> grows s2 s3 -> grows s1 s3.
Proof. unfold grows. intros (?&?&?&?&?) (?&?&?&?&?). repeat split; try lia. tauto. Qed.

Lemma covers_grows idata w s s' x y :
  grows s s' -> covers idata w s x y -> covers idata w s' x y.
Proof.
  unfold grows, covers. intros (?&?&?&?&Hp) Hc Hl.
  destruct (Hc Hl) as (?&?&?). repeat split; try lia. tauto.
Qed.

Lemma scanPixel_grows idata w y s x : grows s (scanPixel idata w y s x).
Proof.
  unfold scanPixel. destruct (above128 _); [|apply grows_refl].
  unfold grows. cbn.
  destruct (x <? minX s) eqn:E1, (maxX s <? x) eqn:E2,
           (y <? minY s) eqn:E3, (maxY s <? y) eqn:E4;
    repeat split; try reflexivity; lia.
Qed.

Lemma scanPixel_covers idata w y s x : covers idata w (scanPixel idata w y s x) x y.
Proof.
  unfold covers, lit, scanPixel. intros Hl. rewrite Hl. cbn.
  destruct (x <? minX s) eqn:E1, (maxX s <? x) eqn:E2,
           (y <? minY s) eqn:E3, (maxY s <? y) eqn:E4;
    repeat split; try reflexivity; lia.
Qed.

Lemma scanColumns_covers idata w y l : forall s,
  grows s (fold_left (scanPixel idata w y) l s)
  /\ forall x, In x l -> covers idata w (fold_left (scanPixel idata w y) l s) x y.
Proof.
  induction l as [|x0 l IH]; intros s; cbn.
  - split; [apply grows_refl | intros x []].
  - destruct (IH (scanPixel idata w y s x0)) as [Hg Hc]. split.
    + eapply grows_trans; [apply scanPixel_grows | exact Hg].
    + intros x [<-|Hx]; [|exact (Hc x Hx)].
      eapply covers_grows; [exact Hg | apply scanPixel_covers].
Qed.

Lemma scanRows_covers idata w l : forall s,
  grows s (fold_left (scanRow idata w) l s)
  /\ forall x y, In x (upto w) -> In y l ->
       covers idata w (fold_left (scanRow idata w) l s) x y.
Proof.
  induction l as [|y0 l IH]; intros s; cbn.
  - split; [apply grows_refl | intros x y _ []].
  - destruct (IH (scanRow idata w s y0)) as [Hg Hc].
    destruct (scanColumns_covers idata w y0 (upto w) s) as [Hg0 Hc0].
    split.
    + eapply grows_trans; [exact Hg0 | exact Hg].
    + intros x y Hx [<-|Hy]; [|exact (Hc x y Hx Hy)].
      eapply covers_grows; [exact Hg | exact (Hc0 x Hx)].
Qed.

Lemma scanPixel_scanned idata W H y s x :
  0 <= x < W -> 0 <= y < H ->
  scanned idata W H s -> scanned idata W H (scanPixel idata W y s x).
Proof.
  intros Hx Hy Hs. unfold scanPixel.
  destruct (above128 _) eqn:Hl; [|exact Hs].
  change (lit idata W x y = true) in Hl.
  unfold scanned in *. cbn [hasPixel minX maxX minY maxY].
  destruct (hasPixel s) eqn:Hp.
  - destruct Hs as (Hx1 & Hx2 & Hy1 & Hy2 & (T1 & T2 & T3 & T4)).
    unfold tight. cbn [minX maxX minY maxY].
    destruct (x <? minX s) eqn:E1, (maxX s <? x) eqn:E2,
             (y <? minY s) eqn:E3, (maxY s <? y) eqn:E4;
      (split; [lia|]); (split; [lia|]); (split; [lia|]); (split; [lia|]);
      repeat split; first [assumption | exists y; split; assumption
                          | exists x; split; assumption].
  - subst s. unfold tight. cbn [minX maxX minY maxY].
    assert (E1 : (x <? W) = true) by lia. assert (E3 : (y <? H) = true) by lia.
    rewrite E1, E3.
    assert (X : (if 0 <? x then x else 0) = x) by (destruct (0 <? x) eqn:E; lia).
    assert (Y : (if 0 <? y then y else 0) = y) by (destruct (0 <? y) eqn:E; lia).
    rewrite X, Y. repeat split; try lia;
      first [exists y; split; assumption | exists x; split; assumption].
Qed.

Lemma scanMask_scanned idata W H : scanned idata W H (scanMask idata W H).
Proof.
  unfold scanMask.
  apply (fold_left_keeps _ (scanned idata W H) (fun y => 0 <= y < H)).
  - intros s y Hs Hy. unfold scanRow.
    apply (fold_left_keeps _ (scanned idata W H) (fun x => 0 <= x < W)).
    + intros s' x Hs' Hx. apply scanPixel_scanned; assumption.
    + intros x. apply in_upto.
    + exact Hs.
  - intros y. apply in_upto.
  - reflexivity.
Qed.

Lemma scanMask_covers idata W H x y :
  0 <= x < W -> 0 <= y < H -> covers idata W (scanMask idata W H) x y.
Proof.
  intros Hx Hy. unfold scanMask.
  apply (scanRows_covers idata W (upto H)); apply in_upto; assumption.
Qed.

Lemma maskToBbox_tight idata width height b :
  maskToBbox idata width height = Some b ->
  exists W H x0 y0 bw bh,
    width = Some W /\ height = Some H
    /\ b = mkBox (inject_Z x0) (inject_Z y0) (inject_Z bw) (inject_Z bh)
    /\ tightBox idata W H x0 y0 bw bh.
Proof.
  unfold maskToBbox. destruct width as [W|]; [|discriminate].
  destruct height as [H|]; [|discriminate].
  pose proof (scanMask_scanned idata W H) as Hs.
  pose proof (scanMask_covers idata W H) as Hc.
  set (s := scanMask idata W H) in *. unfold scanned in Hs.
  destruct (hasPixel s) eqn:Hp; [|discriminate].
  intros [= <-].
  destruct Hs as (Hx1 & Hx2 & Hy1 & Hy2 & (T1 & T2 & T3 & T4)).
  exists W, H, (minX s), (minY s), (maxX s - minX s + 1), (maxY s - minY s + 1).
  split; [reflexivity|]. split; [reflexivity|]. split; [reflexivity|].
  unfold tightBox.
  replace (minX s + (maxX s - minX s + 1) - 1) with (maxX s) by lia.
  replace (minY s + (maxY s - minY s + 1) - 1) with (maxY s) by lia.
  repeat split; try lia; try assumption;
    destruct (Hc x y ltac:(assumption) ltac:(assumption) ltac:(assumption))
      as (_ & ? & ?); lia.
Qed.

Lemma isPointInMask_lit idata width height px py :
  isPointInMask idata width height px py = true ->
  exists W, width = Some W
    /\ 0 <= Qfloor px < W /\ 0 <= Qfloor py
    /\ (forall H, height = Some H -> Qfloor py < H)
    /\ lit idata W (Qfloor px) (Qfloor py) = true.
Proof.
  unfold isPointInMask.
  destruct ((Qfloor px <? 0) || geDim (Qfloor px) width
            || (Qfloor py <? 0) || geDim (Qfloor py) height) eqn:E; [discriminate|].
  apply orb_false_iff in E. destruct E as [E E4].
  apply orb_false_iff in E. destruct E as [E E3].
  apply orb_false_iff in E. destruct E as [E1 E2].
  destruct width as [W|]; [|discriminate]. intros Hl.
  exists W. cbn in E2. split; [reflexivity|]. split; [lia|]. split; [lia|].
  split; [|exact Hl].
  intros H ->. cbn in E4. lia.
Qed.

(** What a hit of the loop of [getSegmentHitAndBbox] comes from. *)
Lemma hitFrom_hit people width height px py : forall i hit,
  hitFrom i people width height px py = Returns (Some hit) ->
  exists person idata,
    (i <= hit_index hit)%nat
    /\ nth_error people (hit_index hit - i) = Some person
    /\ maskToImageData person = Returns (Some idata)
    /\ isPointInMask idata width height px py = true
    /\ maskToBbox idata width height = Some (hit_bbox hit).
Proof.
  induction people as [|p rest IH]; intros i hit Hh; [discriminate|].
  cbn [hitFrom] in Hh.
  assert (Hnext : hitFrom (S i) rest width height px py = Returns (Some hit) ->
    exists person idata,
      (i <= hit_index hit)%nat
      /\ nth_error (p :: rest) (hit_index hit - i) = Some person
      /\ maskToImageData person = Returns (Some idata)
      /\ isPointInMask idata width height px py = true
      /\ maskToBbox idata width height = Some (hit_bbox hit)).
  { intros Hn. destruct (IH _ _ Hn) as (person & idata & Hi & Hnth & Hrest).
    exists person, idata. split; [lia|]. split; [|exact Hrest].
    replace (hit_index hit - i)%nat with (S (hit_index hit - S i)) by lia.
    exact Hnth. }
  destruct (maskToImageData p) as [[idata|]|] eqn:Em; [| auto | discriminate].
  destruct (isPointInMask idata width height px py) eqn:Ep; [|auto].
  destruct (maskToBbox idata width height) as [b|] eqn:Eb; [|auto].
  injection Hh as <-. cbn [hit_index hit_bbox].
  exists p, idata. rewrite Nat.sub_diag. repeat split; auto.
Qed.

Lemma getSegmentHitAndBbox_hit win st image px py hit st' :
  getSegmentHitAndBbox win st image px py = (Some hit, st') ->
  exists seg f people,
    fst (loadSegmenter win st) = Some seg
    /\ segmentPeople seg = Some f
    /\ callSegmentPeople f image = Returns (Some people)
    /\ hitFrom 0 people (imageWidth image) (imageHeight image) px py
         = Returns (Some hit).
Proof.
  unfold getSegmentHitAndBbox.
  destruct (loadSegmenter win st) as [[seg|] st1]; [|discriminate].
  destruct (segmentPeople seg) as [f|] eqn:Ef; [|discriminate].
  destruct (callSegmentPeople f image) as [[people|]|] eqn:Ec; try discriminate.
  destruct people as [|p rest]; [discriminate|].
  destruct (hitFrom 0 (p :: rest) _ _ px py) as [r|] eqn:Eh; [|discriminate].
  intros [= -> <-]. exists seg, f, (p :: rest). auto.
Qed.

(** C10. Whenever the segment hit test returns [{ bbox, index }] for the
    query point (px, py), the returned box is the extent
    [x0 .. x0 + bw - 1] by [y0 .. y0 + bh - 1] of one instance's mask:
    the pixel (floor px, floor py) lies inside it and has alpha above 128
    in that mask; the box has width and height at least 1, lies within
    the image, contains every pixel of the mask with alpha above 128 and
    touches one on each side. *)
Theorem segment_hit_inside_bbox
    (win : Window) (st : Loader) (image : Image) (px py : Q)
    (hit : SegmentHit) (st' : Loader) :
  getSegmentHitAndBbox win st image px py = (Some hit, st') ->
  exists (idata : ImageData) (W H x0 y0 bw bh : Z),
    imageWidth image = Some W /\ imageHeight image = Some H
    /\ hit_bbox hit = mkBox (inject_Z x0) (inject_Z y0) (inject_Z bw) (inject_Z bh)
    /\ x0 <= Qfloor px < x0 + bw
    /\ y0 <= Qfloor py < y0 + bh
    /\ lit idata W (Qfloor px) (Qfloor py) = true
    /\ tightBox idata W H x0 y0 bw bh.
Proof.
  intros Hg.
  destruct (getSegmentHitAndBbox_hit _ _ _ _ _ _ _ Hg) as (seg & f & people & _ & _ & _ & Hh).
  destruct (hitFrom_hit _ _ _ _ _ _ _ Hh) as (person & idata & _ & _ & _ & Hp & Hb).
  destruct (maskToBbox_tight _ _ _ _ Hb) as (W & H & x0 & y0 & bw & bh & Ew & Eh & Ebox & Ht).
  destruct (isPointInMask_lit _ _ _ _ _ Hp) as (W' & Ew' & Hx & Hy & HyH & Hl).
  rewrite Ew in Ew'. injection Ew' as <-.
  specialize (HyH H Eh).
  exists idata, W, H, x0, y0, bw, bh.
  split; [exact Ew|]. split; [exact Eh|]. split; [exact Ebox|].
  pose proof Ht as (_ & _ & _ & _ & _ & _ & Hall & _).
  destruct (Hall (Qfloor px) (Qfloor py) ltac:(lia) ltac:(lia) Hl) as [Hxin Hyin].
  split; [exact Hxin|]. split; [exact Hyin|]. split; [exact Hl|]. exact Ht.
Qed.

(** The tap (1.5, 0.5) on the 2 x 2 mask hits its pixel (1, 0). *)
Lemma segment_hit_inside_bbox_witness :
  exists (idata : ImageData) (W H x0 y0 bw bh : Z),
    imageWidth image2x2 = Some W /\ imageHeight image2x2 = Some H
    /\ mkBox 1 0 1 1 = mkBox (inject_Z x0) (inject_Z y0) (inject_Z bw) (inject_Z bh)
    /\ x0 <= Qfloor (3 # 2) < x0 + bw
    /\ y0 <= Qfloor (1 # 2) < y0 + bh
    /\ lit idata W (Qfloor (3 # 2)) (Qfloor (1 # 2)) = true
    /\ tightBox idata W H x0 y0 bw bh.
Proof.
  exact (segment_hit_inside_bbox win0 loader0 image2x2 (3 # 2) (1 # 2)
           (mkSegmentHit (mkBox 1 0 1 1) 0) loader1 eq_refl).
Defined.

End MaskScan.

(** ** Cosine similarity *)

Section Cosine.
Local Open Scope R_scope.
Import FeatureEmbedding.

Lemma fold_accumulate a : forall b s,
  length a = length b ->
  dot (fold_left accumulate (combine a b) s) = dot s + dotProduct a b
  /\ normA (fold_left accumulate (combine a b) s) = normA s + sumSquares a
  /\ normB (fold_left accumulate (combine a b) s) = normB s + sumSquares b.
Proof.
  induction a as [|x a IH]; intros [|y b] s Hlen; try discriminate.
  - cbn. unfold sumSquares. cbn. repeat split; ring.
  - cbn [combine fold_left]. injection Hlen as Hlen.
    destruct (IH b (accumulate s (x, y)) Hlen) as (Hd & Ha & Hb).
    rewrite Hd, Ha, Hb. unfold sumSquares. cbn. repeat split; ring.
Qed.

Lemma sums_equal_length a b :
  length a = length b ->
  dot (sums a b) = dotProduct a b
  /\ normA (sums a b) = sumSquares a
  /\ normB (sums a b) = sumSquares b.
Proof.
  intros Hlen. unfold sums.
  destruct (fold_accumulate a b (mkSums 0 0 0) Hlen) as (Hd & Ha & Hb).
  rewrite Hd, Ha, Hb. cbn. repeat split; ring.
Qed.








Lemma cosineSimilarity_zero a b :
  a = [] \/ b = [] \/ length a <> length b
  \/ sumSquares a = 0 \/ sumSquares b = 0 ->
  cosineSimilarity a b = 0.
Proof.
  intros H. unfold cosineSimilarity.
  destruct (Nat.eqb (length a) 0) eqn:E0; [reflexivity|].
  destruct (Nat.eqb (length a) (length b)) eqn:El; [|reflexivity].
  apply Nat.eqb_neq in E0. apply Nat.eqb_eq in El. cbn [orb negb].
  destruct (sums_equal_length a b El) as (_ & HA & HB). rewrite HA, HB.
  destruct (Rle_dec _ 0) as [_|Hn]; [reflexivity|].
  exfalso. destruct H as [->|[->|[H|[H|H]]]].
  - apply E0. reflexivity.
  - apply E0. rewrite El. reflexivity.
  - exact (H El).
  - apply Hn. rewrite H, sqrt_0. lra.
  - apply Hn. rewrite H, sqrt_0. lra.
Qed.




End Cosine.

(** ** The disambiguation step of the gameplay tap *)

Section Gameplay.
Import Detection FeatureEmbedding Main.

Lemma accepted_last target pre :
  accepted target (pre ++ [OnMarkerFound (Some target)]).
Proof. unfold accepted. apply in_or_app. right. left. reflexivity. Qed.

Lemma not_accepted_toasts target m ev msg :
  ev = [] \/ ev = [SetDetectionModel] ->
  ~ accepted target (ShowToast m :: ev ++ [ShowToast MsgChecking; ShowToast msg]).
Proof.
  unfold accepted. intros [->| ->]; cbn; intros H;
    repeat (destruct H as [H|H]; [discriminate|]); exact H.
Qed.

(** C9. When the class-level match has succeeded (the treasure names a
    target class, a detector is at hand, the frame has detections, and
    the tap resolves to a detection of the target class) and the treasure
    stores a non-empty reference embedding, the tap is accepted as the
    treasure if and only if the cosine similarity of the reference and the
    candidate embedding is at least FEATURE_SIMILARITY_THRESHOLD, which is
    0.65; and if computing the candidate embedding throws, the tap is
    accepted. *)
Theorem tryFindTreasure_disambiguation
    (env : Env) (st : SegmentHelper.Loader) (clickEvent : option ClickEvent)
    (treasure : Treasure) (targetObject : string) (model : Model)
    (hit : Pick) (st' : SegmentHelper.Loader) (refEmbedding : list R) :
  let canvas := captureCanvas (frameWidth env) (frameHeight env) in
  let filtered := runDetection (Some model) canvas (mkOptions (Some (5 # 10)%Q)) in
  currentTreasure env = Some treasure ->
  targetOf (Some treasure) = Some targetObject ->
  detectionAvailable env = true ->
  storedModel env = Some model
    \/ (storedModel env = None /\ loadDetectionModel env = Returns (Some model)) ->
  filtered <> [] ->
  pickDetectionAt (window env) st canvas (videoRect env)
      (inject_Z (frameWidth env)) (inject_Z (frameHeight env))
      (tapX clickEvent) (tapY clickEvent) filtered (Some targetObject) = (Some hit, st') ->
  pick_class hit = targetObject ->
  featureEmbedding treasure = Some refEmbedding ->
  refEmbedding <> [] ->
  FEATURE_SIMILARITY_THRESHOLD = (65 / 100)%R
  /\ match getEmbeddingFromCrop env canvas (pick_bbox hit)
             (frameWidth env) (frameHeight env) with
     | Returns candidateEmbedding =>
         accepted targetObject (fst (tryFindTreasure env st clickEvent))
         <-> (cosineSimilarity refEmbedding candidateEmbedding
                >= FEATURE_SIMILARITY_THRESHOLD)%R
     | Throws => accepted targetObject (fst (tryFindTreasure env st clickEvent))
     end.
Proof.
  intros canvas filtered Ht Htarget Hav Hmodel Hne Hpick Hcls Href Hnonempty.
  split; [reflexivity|].
  assert (Hloaded : exists ev,
    (ev = [] \/ ev = [SetDetectionModel])
    /\ match storedModel env with
       | Some m => Returns ([], Some m)
       | None =>
           match loadDetectionModel env with
           | Returns (Some m) => Returns ([SetDetectionModel], Some m)
           | Returns None => Returns ([], None)
           | Throws => Throws
           end
       end = Returns (ev, Some model)).
  { destruct Hmodel as [Hm|[Hm Hl]]; rewrite Hm; [|rewrite Hl]; eauto. }
  destruct Hloaded as (ev & Hev & Hloaded).
  assert (Hlen : Nat.eqb (length filtered) 0 = false).
  { destruct filtered; [congruence | reflexivity]. }
  assert (Hrefof : referenceOf (Some treasure) = Some refEmbedding).
  { unfold referenceOf. rewrite Href. destruct refEmbedding; [congruence | reflexivity]. }
  assert (Hrun : tryFindTreasure env st clickEvent =
    match getEmbeddingFromCrop env canvas (pick_bbox hit)
            (frameWidth env) (frameHeight env) with
    | Returns candidateEmbedding =>
        if Rge_dec (cosineSimilarity refEmbedding candidateEmbedding)
                   FEATURE_SIMILARITY_THRESHOLD
        then (ShowToast MsgDetecting :: ev
                ++ [ShowToast MsgChecking; OnMarkerFound (Some targetObject)], st')
        else (ShowToast MsgDetecting :: ev
                ++ [ShowToast MsgChecking;
                    ShowToast (rejection (Some treasure) targetObject)], st')
    | Throws =>
        (ShowToast MsgDetecting :: ev
           ++ [ShowToast MsgChecking; OnMarkerFound (Some targetObject)], st')
    end).
  { unfold tryFindTreasure. rewrite Ht, Htarget, Hav. cbn [negb].
    rewrite Hloaded. fold canvas. fold filtered. rewrite Hlen, Hpick.
    rewrite Hcls, String.eqb_refl. cbn [negb]. rewrite Hrefof. reflexivity. }
  rewrite Hrun.
  assert (Hyes : accepted targetObject
            (ShowToast MsgDetecting :: ev
               ++ [ShowToast MsgChecking; OnMarkerFound (Some targetObject)])).
  { replace (ShowToast MsgDetecting :: ev
               ++ [ShowToast MsgChecking; OnMarkerFound (Some targetObject)])
      with ((ShowToast MsgDetecting :: ev ++ [ShowToast MsgChecking])
              ++ [OnMarkerFound (Some targetObject)])
      by (cbn; rewrite <- app_assoc; reflexivity).
    apply accepted_last. }
  destruct (getEmbeddingFromCrop env canvas (pick_bbox hit) _ _) as [cand|];
    [|exact Hyes].
  destruct (Rge_dec _ _) as [Hge|Hlt]; cbn [fst].
  - split; intros _; assumption.
  - split; intros H; [|contradiction].
    exfalso. exact (not_accepted_toasts _ _ _ _ Hev H).
Qed.

(** The game of the fixtures: the tap on the person is checked against
    the stored embedding. *)
Lemma tryFindTreasure_disambiguation_witness :
  accepted "person" (fst (tryFindTreasure gameEnv loader0 tap))
  <-> (cosineSimilarity [1; 0]%R [1; 0]%R >= FEATURE_SIMILARITY_THRESHOLD)%R.
Proof.
  destruct (tryFindTreasure_disambiguation gameEnv loader0 tap grandma "person"
              personModel (mkPick "person" (mkBox 0 0 2 2)) loader0 [1; 0]%R)
    as [_ H];
    [reflexivity | reflexivity | reflexivity | left; reflexivity | discriminate
    | reflexivity | reflexivity | reflexivity | discriminate |].
  exact H.
Defined.

End Gameplay.

(** ** Greedy matching of detections to masks *)

Section GreedyMatching.
Local Open Scope Q_scope.
Import CaptureEditModel.

Lemma bestUnused_snoc used box l x :
  bestUnused used box (l ++ [x])
  = bestStep used box (bestUnused used box l) (length l, x).
Proof.
  unfold bestUnused. rewrite imap_app, fold_left_app. cbn.
  rewrite Nat.add_0_r. reflexivity.
Qed.

Lemma bestUnused_sofar used box masks :
  bestSoFar used box masks (bestUnused used box masks).
Proof.
  induction masks as [|x l IH] using rev_ind.
  - unfold bestSoFar, bestUnused. cbn. split; [apply Qle_refl|].
    split; [|reflexivity]. intros j sm Hj. rewrite lookup_nil in Hj. discriminate.
  - rewrite bestUnused_snoc. destruct (bestUnused used box l) as [bj bi].
    destruct IH as (Hpos & Hall & Hbest). cbn [fst snd] in *.
    unfold bestStep, bestSoFar. cbn [fst snd].
    assert (Hkeep : match bj with
       | None => bi = 0
       | Some j => exists sm, (l ++ [x]) !! j = Some sm /\ (j ∉ used)
                              /\ bi = iouOf box (mask_bbox sm) /\ 0 < bi
       end).
    { destruct bj as [j|]; [|exact Hbest].
      destruct Hbest as (sm & Hl & Hrest). exists sm.
      split; [apply lookup_app_l_Some; exact Hl | exact Hrest]. }
    destruct (decide (length l ∈ used)) as [Hin|Hout]; cbn [fst snd].
    + split; [exact Hpos|]. split; [|exact Hkeep].
      intros j sm Hj Hu. apply lookup_snoc_Some in Hj.
      destruct Hj as [[_ Hj]|[-> _]]; [exact (Hall j sm Hj Hu) | contradiction].
    + destruct (ltb bi (iouOf box (mask_bbox x))) eqn:E.
      * apply ltb_true in E. cbn [fst snd]. split; [lra|]. split.
        -- intros j sm Hj Hu. apply lookup_snoc_Some in Hj.
           destruct Hj as [[_ Hj]|[_ <-]]; [|apply Qle_refl].
           specialize (Hall j sm Hj Hu). lra.
        -- exists x. split; [apply list_lookup_middle; reflexivity|].
           split; [exact Hout|]. split; [reflexivity | lra].
      * apply ltb_false in E. cbn [fst snd]. split; [exact Hpos|]. split; [|exact Hkeep].
        intros j sm Hj Hu. apply lookup_snoc_Some in Hj.
        destruct Hj as [[_ Hj]|[_ <-]]; [exact (Hall j sm Hj Hu) | exact E].
Qed.

(** Claims before [k] are not touched by an entry at [i] when [k <= i]. *)
Lemma claimedBefore_insert m i bj k j :
  (k <= i)%nat -> claimedBefore (<[i := bj]> m) k j <-> claimedBefore m k j.
Proof.
  intros Hk. unfold claimedBefore. split; intros (k' & Hlt & Hm); exists k';
    (split; [exact Hlt|]).
  - rewrite lookup_insert_ne in Hm by lia. exact Hm.
  - rewrite lookup_insert_ne by lia. exact Hm.
Qed.

Lemma bestUnclaimed_insert preds masks m i bj k j :
  (k <= i)%nat ->
  bestUnclaimed preds masks m k j -> bestUnclaimed preds masks (<[i := bj]> m) k j.
Proof.
  intros Hk (p & sm & Hp & Hsm & Hfree & Hiou & Hmax).
  exists p, sm. split; [exact Hp|]. split; [exact Hsm|].
  split; [rewrite claimedBefore_insert by exact Hk; exact Hfree|].
  split; [exact Hiou|].
  intros j' sm' Hj' Hfree'. apply (Hmax j' sm' Hj').
  rewrite claimedBefore_insert in Hfree' by exact Hk. exact Hfree'.
Qed.

Lemma someUnclaimedAbove_insert preds masks m i bj k :
  (k <= i)%nat ->
  someUnclaimedAbove preds masks (<[i := bj]> m) k -> someUnclaimedAbove preds masks m k.
Proof.
  intros Hk (p & j & sm & Hp & Hsm & Hfree & Hiou).
  exists p, j, sm. split; [exact Hp|]. split; [exact Hsm|].
  split; [|exact Hiou].
  rewrite claimedBefore_insert in Hfree by exact Hk. exact Hfree.
Qed.

(** When all entries are below [i], the masks claimed before [i] are the
    used ones. *)
Lemma claimedBefore_used preds masks i m used j :
  matchedUpTo preds masks i m used -> claimedBefore m i j <-> j ∈ used.
Proof.
  intros (Hlt & Hused & _). rewrite Hused. unfold claimedBefore. split.
  - intros (k & _ & Hk). exists k. exact Hk.
  - intros (k & Hk). exists k. split; [exact (Hlt k j Hk) | exact Hk].
Qed.

(** One turn of the outer loop that claims mask [bj] for detection [i]. *)
Lemma matchedUpTo_claim preds masks i m used p bj bi :
  matchedUpTo preds masks i m used ->
  preds !! i = Some p ->
  bestUnused used (bbox p) masks = (Some bj, bi) ->
  2 # 10 < bi ->
  matchedUpTo preds masks (S i) (<[i := bj]> m) ({[bj]} ∪ used).
Proof.
  intros Hinv Hp Hbest Hgt.
  pose proof (bestUnused_sofar used (bbox p) masks) as Hsofar.
  rewrite Hbest in Hsofar. destruct Hsofar as (_ & Hall & (sm & Hsm & Hfree & Hbi & _)).
  cbn [fst snd] in *.
  pose proof Hinv as (Hlt & Hused & Hinj & Hgood & Hnone).
  assert (Hfresh : m !! i = None).
  { destruct (m !! i) as [j|] eqn:E; [|reflexivity]. specialize (Hlt i j E). lia. }
  split; [|split; [|split; [|split]]].
  - intros k j Hk. apply lookup_insert_Some in Hk.
    destruct Hk as [[<- _]|[_ Hk]]; [lia | specialize (Hlt k j Hk); lia].
  - intros j. rewrite elem_of_union, elem_of_singleton, Hused. split.
    + intros [->|(k & Hk)].
      * exists i. apply lookup_insert_eq.
      * exists k. rewrite lookup_insert_ne; [exact Hk|].
        intros <-. congruence.
    + intros (k & Hk). apply lookup_insert_Some in Hk.
      destruct Hk as [[_ <-]|[_ Hk]]; [left; reflexivity | right; exists k; exact Hk].
  - intros k1 k2 j H1 H2.
    apply lookup_insert_Some in H1. apply lookup_insert_Some in H2.
    destruct H1 as [[<- <-]|[Hn1 H1]], H2 as [[<- E2]|[Hn2 H2]].
    + reflexivity.
    + exfalso. apply Hfree. apply Hused. exists k2. exact H2.
    + exfalso. subst j. apply Hfree. apply Hused. exists k1. exact H1.
    + exact (Hinj k1 k2 j H1 H2).
  - intros k j Hk. apply lookup_insert_Some in Hk.
    destruct Hk as [[<- <-]|[Hne Hk]].
    + exists p, sm. split; [exact Hp|]. split; [exact Hsm|].
      split; [|split].
      * rewrite claimedBefore_insert by lia.
        rewrite (claimedBefore_used _ _ _ _ _ _ Hinv). exact Hfree.
      * rewrite <- Hbi. exact Hgt.
      * intros j' sm' Hj' Hfree'. rewrite <- Hbi. apply (Hall j' sm' Hj').
        rewrite claimedBefore_insert in Hfree' by lia.
        rewrite (claimedBefore_used _ _ _ _ _ _ Hinv) in Hfree'. exact Hfree'.
    + apply bestUnclaimed_insert; [specialize (Hlt k j Hk); lia | exact (Hgood k j Hk)].
  - intros k Hk Hm. apply lookup_insert_None in Hm. destruct Hm as [Hm Hne].
    intros Habove. apply (Hnone k); [lia | exact Hm |].
    apply (someUnclaimedAbove_insert _ _ _ i bj); [lia | exact Habove].
Qed.

(** One turn of the outer loop that leaves detection [i] unmatched. *)
Lemma matchedUpTo_skip preds masks i m used p :
  matchedUpTo preds masks i m used ->
  preds !! i = Some p ->
  (bestUnused used (bbox p) masks).2 <= 2 # 10 ->
  matchedUpTo preds masks (S i) m used.
Proof.
  intros Hinv Hp Hle.
  pose proof (bestUnused_sofar used (bbox p) masks) as (_ & Hall & _).
  pose proof Hinv as (Hlt & Hused & Hinj & Hgood & Hnone).
  split; [|split; [|split; [|split]]]; try assumption.
  - intros k j Hk. specialize (Hlt k j Hk). lia.
  - intros k Hk Hm. destruct (decide (k = i)) as [->|Hne].
    + intros (p' & j & sm & Hp' & Hsm & Hfree & Hiou).
      rewrite Hp in Hp'. injection Hp' as <-.
      rewrite (claimedBefore_used _ _ _ _ _ _ Hinv) in Hfree.
      specialize (Hall j sm Hsm Hfree). lra.
    + apply Hnone; [lia | exact Hm].
Qed.

Lemma matchFrom_matchedUpTo preds masks : forall rest i m used,
  (forall k, rest !! k = preds !! (i + k)%nat) ->
  matchedUpTo preds masks i m used ->
  exists used',
    matchedUpTo preds masks (i + length rest) (matchFrom i rest masks m used) used'.
Proof.
  induction rest as [|p rest IH]; intros i m used Hrest Hinv.
  - exists used. cbn. rewrite Nat.add_0_r. exact Hinv.
  - assert (Hp : preds !! i = Some p).
    { specialize (Hrest 0%nat). rewrite Nat.add_0_r in Hrest. symmetry. exact Hrest. }
    assert (Hrest' : forall k, rest !! k = preds !! (S i + k)%nat).
    { intros k. replace (S i + k)%nat with (i + S k)%nat by lia.
      rewrite <- Hrest. reflexivity. }
    cbn [matchFrom length]. replace (i + S (length rest))%nat with (S i + length rest)%nat by lia.
    destruct (bestUnused used (bbox p) masks) as [bj bi] eqn:Hbest. cbn [fst snd].
    assert (Hskip : bi <= 2 # 10 -> matchedUpTo preds masks (S i) m used).
    { intros Hle. apply (matchedUpTo_skip _ _ _ _ _ p); [exact Hinv | exact Hp |].
      rewrite Hbest. exact Hle. }
    destruct bj as [bj|].
    + destruct (ltb (2 # 10) bi) eqn:E.
      * apply ltb_true in E. apply IH; [exact Hrest'|].
        exact (matchedUpTo_claim _ _ _ _ _ _ _ _ Hinv Hp Hbest E).
      * apply ltb_false in E. apply IH; [exact Hrest' | exact (Hskip E)].
    + apply IH; [exact Hrest'|]. apply Hskip.
      pose proof (bestUnused_sofar used (bbox p) masks) as (_ & _ & H0).
      rewrite Hbest in H0. cbn in H0. rewrite H0. discriminate.
Qed.

Lemma matchedUpTo_start preds masks : matchedUpTo preds masks 0 ∅ ∅.
Proof.
  split; [|split; [|split; [|split]]].
  - intros k j Hk. rewrite lookup_empty in Hk. discriminate.
  - intros j. split; [intros H; exfalso; set_solver|].
    intros (k & Hk). rewrite lookup_empty in Hk. discriminate.
  - intros k1 k2 j Hk. rewrite lookup_empty in Hk. discriminate.
  - intros k j Hk. rewrite lookup_empty in Hk. discriminate.
  - intros k Hk. lia.
Qed.

(** C3. The map returned by [matchPredictionsToSegmentMasks] assigns no
    mask index to two detection indices; an entry i -> j pairs detection i
    with a mask j that no earlier detection has claimed, whose IoU with
    the box of i exceeds 0.2 and is the best among the masks not claimed
    before i; and a detection index i is in the map exactly when some
    mask not claimed before i has an IoU above 0.2 with its box. *)
Theorem matchPredictionsToSegmentMasks_greedy
    (predictions : list Prediction) (segmentMasks : list SegmentMask) :
  let m := matchPredictionsToSegmentMasks predictions segmentMasks in
  (forall i1 i2 j, m !! i1 = Some j -> m !! i2 = Some j -> i1 = i2)
  /\ (forall i j, m !! i = Some j ->
        bestUnclaimed predictions segmentMasks m i j)
  /\ (forall i, (i < length predictions)%nat ->
        (is_Some (m !! i) <-> someUnclaimedAbove predictions segmentMasks m i))
  /\ (forall i, (length predictions <= i)%nat -> m !! i = None).
Proof.
  intros m.
  assert (Hinv : exists used,
            matchedUpTo predictions segmentMasks (length predictions) m used).
  { subst m. unfold matchPredictionsToSegmentMasks.
    destruct segmentMasks as [|sm0 masks].
    - exists ∅.
      pose proof (matchedUpTo_start predictions []) as (H1 & H2 & H3 & H4 & _).
      split; [|split; [|split; [|split]]]; try assumption.
      + intros k j Hk. rewrite lookup_empty in Hk. discriminate.
      + intros k _ _ (p & j & sm & _ & Hsm & _). rewrite lookup_nil in Hsm. discriminate.
    - apply (matchFrom_matchedUpTo predictions (sm0 :: masks) predictions 0 ∅ ∅).
      + intros k. reflexivity.
      + apply matchedUpTo_start. }
  destruct Hinv as (used & Hlt & _ & Hinj & Hgood & Hnone).
  split; [exact Hinj|]. split; [exact Hgood|]. split.
  - intros i Hi. split.
    + intros [j Hj]. destruct (Hgood i j Hj) as (p & sm & Hp & Hsm & Hfree & Hiou & _).
      exists p, j, sm. auto.
    + intros Habove. destruct (m !! i) as [j|] eqn:E; [eexists; reflexivity|].
      exfalso. exact (Hnone i Hi E Habove).
  - intros i Hi. destruct (m !! i) as [j|] eqn:E; [|reflexivity].
    specialize (Hlt i j E). lia.
Qed.

(** With two detections over one mask, the first claims it and the second
    stays unmatched. *)
Lemma matchPredictionsToSegmentMasks_greedy_witness :
  bestUnclaimed twoPredictions oneMask
    (matchPredictionsToSegmentMasks twoPredictions oneMask) 0 0
  /\ matchPredictionsToSegmentMasks twoPredictions oneMask !! 1%nat = None
  /\ ~ someUnclaimedAbove twoPredictions oneMask
        (matchPredictionsToSegmentMasks twoPredictions oneMask) 1.
Proof.
  destruct (matchPredictionsToSegmentMasks_greedy twoPredictions oneMask)
    as (_ & Hbest & Hiff & _).
  assert (H1 : matchPredictionsToSegmentMasks twoPredictions oneMask !! 1%nat = None)
    by (vm_compute; reflexivity).
  split; [apply Hbest; vm_compute; reflexivity|].
  split; [exact H1|].
  intros Habove. apply (Hiff 1%nat) in Habove; [|cbn; lia].
  rewrite H1 in Habove. destruct Habove as [j Hj]. discriminate.
Defined.

End GreedyMatching.

(** * Further properties *)


(** ** Contain and cover fit *)

Section Fits.
Local Open Scope Q_scope.
Import CaptureEditModel Viewers.










End Fits.

(** ** Taps, detections and the overlay *)

Section Taps.
Local Open Scope Q_scope.
Import Detection.






Lemma filter_filter_implied {A} (f g : A -> bool) (l : list A) :
  (forall a, g a = true -> f a = true) ->
  List.filter g (List.filter f l) = List.filter g l.
Proof.
  intros Himp. induction l as [|a l IH]; [reflexivity|]. cbn.
  destruct (f a) eqn:Ef; cbn.
  - destruct (g a); [f_equal|]; exact IH.
  - destruct (g a) eqn:Eg; [|exact IH].
    rewrite (Himp a Eg) in Ef. discriminate.
Qed.

(** X6. Raising the score threshold only removes detections: with
    thresholds t1 <= t2, what [runDetection] returns at t2 is what it
    returns at t1 with the detections of score below t2 taken out, so
    every detection found at t2 is also found at t1. *)
Theorem runDetection_threshold_monotone
    (model : option Model) (image : Image) (t1 t2 : Q) :
  t1 <= t2 ->
  runDetection model image (mkOptions (Some t2))
    = List.filter (fun p => leb t2 (default 0 (score p)))
                  (runDetection model image (mkOptions (Some t1)))
  /\ forall p, In p (runDetection model image (mkOptions (Some t2))) ->
               In p (runDetection model image (mkOptions (Some t1))).
Proof.
  intros Hle.
  assert (Heq : runDetection model image (mkOptions (Some t2))
    = List.filter (fun p => leb t2 (default 0 (score p)))
                  (runDetection model image (mkOptions (Some t1)))).
  { unfold runDetection. destruct model as [m|]; [|reflexivity].
    destruct (detect m) as [run|]; [|reflexivity].
    destruct (run image) as [preds|]; [|reflexivity]. cbn [scoreThreshold default].
    symmetry. apply filter_filter_implied. intros p Hp.
    apply leb_true in Hp. apply leb_true.
    eapply Qle_trans; [exact Hle | exact Hp]. }
  split; [exact Heq|].
  intros p Hp. rewrite Heq in Hp. apply filter_In in Hp. tauto.
Qed.

(** The cup passes 0.5 and so passes 0.3. *)
Lemma runDetection_threshold_monotone_witness :
  runDetection (Some model0) image2x2 (mkOptions (Some (5 # 10)))
  = List.filter (fun p => leb (5 # 10) (default 0 (score p)))
                (runDetection (Some model0) image2x2 (mkOptions (Some (3 # 10)))).
Proof.
  apply (runDetection_threshold_monotone (Some model0) image2x2 (3 # 10) (5 # 10)).
  discriminate.
Defined.

(** The first element of a list sorted by the difference of a key is the
    first element of least key of the list. *)
Lemma sortBy_head_first_least {A} (key : A -> Q) (l : list A) h t :
  sortBy (fun a b => key a - key b) l = h :: t ->
  exists l1 l2, l = l1 ++ h :: l2
    /\ (forall q, In q l1 -> key h < key q)
    /\ (forall q, In q l2 -> key h <= key q).
Proof.
  revert h t. induction l as [|a l IH]; intros h t H; [discriminate|].
  change (insertBy (fun a b => key a - key b) a
            (sortBy (fun a b => key a - key b) l) = h :: t) in H.
  destruct (sortBy (fun a b => key a - key b) l) as [|b rest] eqn:E.
  - apply sortBy_nil_inv in E. subst l. cbn in H. injection H as <- _.
    exists [], []. split; [reflexivity|]. split; intros q [].
  - destruct (IH b rest eq_refl) as (l1 & l2 & -> & H1 & H2). cbn in H.
    destruct (leb (key a - key b) 0) eqn:C.
    + injection H as <- _. apply leb_true in C.
      exists [], (l1 ++ b :: l2). split; [reflexivity|]. split; [intros q []|].
      intros q Hq. apply in_app_or in Hq. destruct Hq as [Hq|[<-|Hq]].
      * specialize (H1 q Hq). lra.
      * lra.
      * specialize (H2 q Hq). lra.
    + injection H as <- _. apply leb_false in C.
      exists (a :: l1), l2. split; [reflexivity|]. split; [|exact H2].
      intros q [<-|Hq]; [lra | exact (H1 q Hq)].
Qed.

Lemma filter_split {A} (f : A -> bool) (l : list A) l1 h l2 :
  List.filter f l = l1 ++ h :: l2 ->
  exists p1 p2, l = p1 ++ h :: p2
    /\ List.filter f p1 = l1 /\ List.filter f p2 = l2 /\ f h = true.
Proof.
  revert l1. induction l as [|a l IH]; intros l1 H.
  - destruct l1; discriminate.
  - cbn in H. destruct (f a) eqn:Ea.
    + destruct l1 as [|b l1].
      * injection H as <- H. exists [], l. cbn. auto.
      * injection H as <- H. destruct (IH l1 H) as (p1 & p2 & -> & F1 & F2 & Fh).
        exists (a :: p1), p2. cbn. rewrite Ea, F1. auto.
    + destruct (IH l1 H) as (p1 & p2 & -> & F1 & F2 & Fh).
      exists (a :: p1), p2. cbn. rewrite Ea. auto.
Qed.

(** X7. Ties go to the earlier detection: for a view rectangle of
    non-zero size, the detection [pickAtClient] returns splits the list so
    that every detection before it whose box contains the point has a
    strictly larger area, and every one after it whose box contains the
    point has an area at least as large. *)
Theorem pickAtClient_first_smallest
    (rect : DOMRect) (sw sh cx cy : Q) (preds : list Prediction) (r : Pick) :
  ~ rect_width rect == 0 -> ~ rect_height rect == 0 ->
  pickAtClient rect sw sh cx cy preds = Some r ->
  let p := clientToSource rect sw sh cx cy in
  exists before d after,
    preds = before ++ d :: after
    /\ r = mkPick (class d) (bbox d)
    /\ inBox p (bbox d)
    /\ (forall q, In q before -> inBox p (bbox q) -> area d < area q)
    /\ (forall q, In q after -> inBox p (bbox q) -> area d <= area q).
Proof.
  intros Hw Hh Hpick p. rewrite pickAtClient_regular in Hpick by assumption. fold p in Hpick.
  destruct (sortBy _ _) as [|hit rest] eqn:E; [discriminate|]. injection Hpick as <-.
  apply (sortBy_head_first_least area) in E. destruct E as (l1 & l2 & E & H1 & H2).
  apply filter_split in E. destruct E as (p1 & p2 & -> & F1 & F2 & Fh).
  exists p1, hit, p2. split; [reflexivity|]. split; [reflexivity|].
  split; [apply containsPoint_inBox; exact Fh|]. split.
  - intros q Hq Hb. apply H1. rewrite <- F1. apply filter_In.
    split; [exact Hq | apply containsPoint_inBox; exact Hb].
  - intros q Hq Hb. apply H2. rewrite <- F2. apply filter_In.
    split; [exact Hq | apply containsPoint_inBox; exact Hb].
Qed.

(** Two detections with the box B after the larger box A: the first of
    the two B-sized ones is picked. *)
Lemma pickAtClient_first_smallest_witness :
  let preds := [mkPrediction "person" boxA None; mkPrediction "cup" boxB None;
                mkPrediction "bowl" boxB None] in
  let p := clientToSource (mkRect 0 0 100 100) 100 100 15 15 in
  exists before d after,
    preds = before ++ d :: after
    /\ mkPick "cup" boxB = mkPick (class d) (bbox d)
    /\ inBox p (bbox d)
    /\ (forall q, In q before -> inBox p (bbox q) -> area d < area q)
    /\ (forall q, In q after -> inBox p (bbox q) -> area d <= area q).
Proof.
  apply (pickAtClient_first_smallest (mkRect 0 0 100 100) 100 100 15 15);
    [discriminate | discriminate | reflexivity].
Defined.




(** X9. In a view that is not laid out (zero width or height) the tap
    resolves through the mask tier only: [pickDetectionAt] returns a
    detection exactly when segmentation is available for the target class
    and the mask hit test at the source point (0, 0) succeeds, and it
    never returns one from the prediction list. *)
Theorem pickDetectionAt_unlaid_view
    (win : SegmentHelper.Window) (st : SegmentHelper.Loader) (image : Image)
    (rect : DOMRect) (sw sh cx cy : Q) (preds : list Prediction)
    (targetClass : option string) (r : Pick) :
  rect_width rect == 0 \/ rect_height rect == 0 ->
  fst (pickDetectionAt win st image rect sw sh cx cy preds targetClass) = Some r
  <-> exists cls hit,
        targetClass = Some cls
        /\ SegmentHelper.isSegmentAvailableForClass win cls = true
        /\ fst (SegmentHelper.getSegmentHitAndBbox win st image 0 0) = Some hit
        /\ r = mkPick cls (SegmentHelper.hit_bbox hit).
Proof.
  intros Hdeg.
  assert (Hp : clientToSource rect sw sh cx cy = mkPoint 0 0)
    by (apply clientToSource_degenerate; exact Hdeg).
  assert (Hbox : pickAtClient rect sw sh cx cy preds = None).
  { unfold pickAtClient.
    destruct Hdeg as [H|H]; apply falsy_true in H; rewrite H;
      [reflexivity | rewrite orb_true_r; reflexivity]. }
  unfold pickDetectionAt. rewrite Hp, Hbox. cbn [px py].
  destruct targetClass as [cls|].
  - destruct (SegmentHelper.isSegmentAvailableForClass win cls) eqn:Ea.
    + rewrite (isSegmentAvailableForClass_truthy _ _ Ea). cbn [andb].
      destruct (SegmentHelper.getSegmentHitAndBbox win st image 0 0) as [[hit|] st'];
        cbn [fst]; split.
      * intros [= <-]. exists cls, hit. auto.
      * intros (c & h & [= <-] & _ & [= <-] & ->). reflexivity.
      * discriminate.
      * intros (c & h & _ & _ & Hh & _). discriminate.
    + rewrite andb_false_r. cbn [fst]. split; [discriminate|].
      intros (c & h & [= <-] & Ha & _). congruence.
  - cbn [fst]. split; [discriminate|]. intros (c & h & Hc & _). discriminate.
Qed.

(** A zero-width view: the tap on the cup is lost, the person at the
    source origin is not found either, its mask being unlit there. *)
Lemma pickDetectionAt_unlaid_view_witness :
  fst (pickDetectionAt win0 loader0 image2x2 (mkRect 0 0 0 2) 2 2 1 1 [cup]
         (Some "person"%string)) = Some (mkPick "person" (mkBox 1 0 1 1))
  <-> exists cls hit,
        Some "person"%string = Some cls
        /\ SegmentHelper.isSegmentAvailableForClass win0 cls = true
        /\ fst (SegmentHelper.getSegmentHitAndBbox win0 loader0 image2x2 0 0) = Some hit
        /\ mkPick "person" (mkBox 1 0 1 1) = mkPick cls (SegmentHelper.hit_bbox hit).
Proof.
  apply (pickDetectionAt_unlaid_view win0 loader0 image2x2 (mkRect 0 0 0 2) 2 2 1 1
           [cup] (Some "person"%string)).
  left. reflexivity.
Defined.

End Taps.

(** ** Loaders *)

Section Loaders.
Import SegmentHelper.

(** X10. The segmenter loader settles on its first answer: after one call
    of [loadSegmenter], every later call returns the same segmenter or
    [null] and leaves the cache as it is, whatever the window then holds;
    so a first call made before the segmentation script is there, or one
    whose [createSegmenter] throws, makes every later call return [null]. *)
Theorem loadSegmenter_settles (win win' : Window) (st : Loader) :
  loadSegmenter win' (snd (loadSegmenter win st))
    = (fst (loadSegmenter win st), snd (loadSegmenter win st))
  /\ (segmenter st = None -> segmenterLoadPromise st = None ->
      bodySegmentation win = None
      \/ (exists lib, bodySegmentation win = Some lib
                      /\ forall m, createSegmenter lib m = Throws) ->
      fst (loadSegmenter win' (snd (loadSegmenter win st))) = None).
Proof.
  assert (Hsettle : loadSegmenter win' (snd (loadSegmenter win st))
    = (fst (loadSegmenter win st), snd (loadSegmenter win st))).
  { unfold loadSegmenter at 2 3 4.
    destruct (segmenter st) as [s|] eqn:Es.
    - cbn [fst snd]. unfold loadSegmenter. rewrite Es. reflexivity.
    - destruct (segmenterLoadPromise st) as [r|] eqn:Ep.
      + cbn [fst snd]. unfold loadSegmenter. rewrite Es, Ep. reflexivity.
      + cbn [fst snd]. unfold loadSegmenter. cbn [segmenter segmenterLoadPromise].
        destruct (match bodySegmentation win with Some _ => _ | None => _ end)
          as [s|]; reflexivity. }
  split; [exact Hsettle|].
  intros Es Ep Hwin. rewrite Hsettle. cbn [fst].
  unfold loadSegmenter. rewrite Es, Ep. cbn [fst].
  destruct Hwin as [Hnone|(lib & Hlib & Hthrow)].
  - rewrite Hnone. reflexivity.
  - rewrite Hlib. destruct (hasBodyPix lib); [rewrite Hthrow; reflexivity|].
    destruct (hasMediaPipe lib); [rewrite Hthrow|]; reflexivity.
Qed.

(** Asked before the script is there, the loader of the fixtures never
    delivers, although the window later offers BodyPix. *)
Lemma loadSegmenter_settles_witness :
  fst (loadSegmenter win0 (snd (loadSegmenter (mkWindow None) loader0))) = None.
Proof.
  destruct (loadSegmenter_settles (mkWindow None) win0 loader0) as [_ H].
  apply H; [reflexivity | reflexivity | left; reflexivity].
Defined.

End Loaders.

Section DetectorLoader.
Import Detection DetectionLoader.

(** X11. The detector loader does not remember that the detector script
    was missing: a call without [window.cocoSsd] returns [null] and leaves
    the cache untouched, so a later call with the script loads the model;
    but once a load has been started with the script present, every later
    call with the script present returns the same answer, a failed load
    included. *)
Theorem loadDetectionModel_retries_only_when_unavailable
    (win win' : DetectionLoader.Window) (st : Cache) :
  (cocoSsd win = None -> loadDetectionModel win st = (None, st))
  /\ (forall lib m, cocoSsd win = None -> cocoSsd win' = Some lib ->
        cachedModel st = None -> loadPromise st = None -> load lib = Returns m ->
        fst (loadDetectionModel win' (snd (loadDetectionModel win st))) = Some m)
  /\ (cocoSsd win <> None -> cocoSsd win' <> None ->
        loadDetectionModel win' (snd (loadDetectionModel win st))
          = (fst (loadDetectionModel win st), snd (loadDetectionModel win st))).
Proof.
  split; [|split].
  - intros Hnone. unfold loadDetectionModel. rewrite Hnone. reflexivity.
  - intros lib m Hnone Hlib Hc Hp Hload. unfold loadDetectionModel.
    rewrite Hnone. cbn [snd]. rewrite Hlib, Hc, Hp, Hload. reflexivity.
  - intros Hwin Hwin'.
    destruct (cocoSsd win) as [lib|] eqn:El; [|congruence].
    destruct (cocoSsd win') as [lib'|] eqn:El'; [|congruence].
    unfold loadDetectionModel at 2 3 4. rewrite El.
    destruct (cachedModel st) as [m|] eqn:Ec.
    + cbn [fst snd]. unfold loadDetectionModel. rewrite El', Ec. reflexivity.
    + destruct (loadPromise st) as [r|] eqn:Ep.
      * cbn [fst snd]. unfold loadDetectionModel. rewrite El', Ec, Ep. reflexivity.
      * destruct (load lib) as [m|]; cbn [fst snd]; unfold loadDetectionModel;
          rewrite El'; reflexivity.
Qed.

(** A missing script, then a script whose load delivers the detector of
    the fixtures. *)
Lemma loadDetectionModel_retries_only_when_unavailable_witness :
  fst (loadDetectionModel
         (DetectionLoader.mkWindow (Some (mkCocoSsd (Returns model0))))
         (snd (loadDetectionModel (DetectionLoader.mkWindow None) (mkCache None None))))
  = Some model0.
Proof.
  destruct (loadDetectionModel_retries_only_when_unavailable
              (DetectionLoader.mkWindow None)
              (DetectionLoader.mkWindow (Some (mkCocoSsd (Returns model0))))
              (mkCache None None)) as (_ & H & _).
  apply (H (mkCocoSsd (Returns model0)) model0); reflexivity.
Defined.

End DetectorLoader.

(** ** The masks of the overlay *)

Section OverlayMasks.
Local Open Scope Z_scope.
Import SegmentHelper CaptureEditModel SegmentMasks.

Lemma masksFrom_acc people width height : forall acc,
  masksFrom people width height acc
  = match masksFrom people width height [] with
    | Returns l => Returns (acc ++ l)
    | Throws => Throws
    end.
Proof.
  induction people as [|p rest IH]; intros acc; cbn [masksFrom].
  - rewrite app_nil_r. reflexivity.
  - destruct (maskToImageData p) as [[idata|]|]; [| apply IH | reflexivity].
    destruct (maskToBbox idata width height) as [b|]; [|apply IH].
    rewrite (IH (acc ++ _)), (IH ([] ++ _)).
    destruct (masksFrom rest width height []); [|reflexivity].
    rewrite <- app_assoc. reflexivity.
Qed.

Lemma masksFrom_boxes people width height : forall l,
  masksFrom people width height [] = Returns l ->
  forall sm, In sm l -> maskToBbox (mask sm) width height = Some (mask_bbox sm).
Proof.
  induction people as [|p rest IH]; intros l Hl sm Hin; cbn [masksFrom] in Hl.
  - injection Hl as <-. destruct Hin.
  - destruct (maskToImageData p) as [[idata|]|]; [| eauto | discriminate].
    destruct (maskToBbox idata width height) as [b|] eqn:Eb; [|eauto].
    rewrite masksFrom_acc in Hl.
    destruct (masksFrom rest width height []) as [l'|]; [|discriminate].
    injection Hl as <-. cbn in Hin. destruct Hin as [<-|Hin]; [exact Eb | eauto].
Qed.

Lemma getSegmentMasks_from win st image sm :
  In sm (fst (getSegmentMasks win st image)) ->
  exists seg f people,
    fst (loadSegmenter win st) = Some seg
    /\ segmentPeople seg = Some f
    /\ callSegmentPeople f image = Returns (Some people)
    /\ masksFrom people (imageWidth image) (imageHeight image) []
         = Returns (fst (getSegmentMasks win st image)).
Proof.
  unfold getSegmentMasks.
  destruct (loadSegmenter win st) as [[seg|] st1]; [|intros []].
  destruct (segmentPeople seg) as [f|] eqn:Ef; [|intros []].
  destruct (callSegmentPeople f image) as [[people|]|] eqn:Ec; try (intros []).
  destruct people as [|p rest]; [intros []|].
  destruct (masksFrom (p :: rest) _ _ []) as [r|] eqn:Em; [|intros []].
  cbn [fst]. intros _. exists seg, f, (p :: rest). auto.
Qed.

(** X12. Every mask [getSegmentMasks] returns comes with the tight box of
    its pixels with alpha above 128: the box is not empty, lies within
    the image, contains every such pixel and touches one on each side;
    instances without such a pixel are not returned. *)
Theorem getSegmentMasks_boxes_tight
    (win : Window) (st : Loader) (image : Image) (sm : SegmentMask) :
  In sm (fst (getSegmentMasks win st image)) ->
  exists W H x0 y0 bw bh,
    imageWidth image = Some W /\ imageHeight image = Some H
    /\ mask_bbox sm = mkBox (inject_Z x0) (inject_Z y0) (inject_Z bw) (inject_Z bh)
    /\ tightBox (mask sm) W H x0 y0 bw bh.
Proof.
  intros Hin.
  destruct (getSegmentMasks_from _ _ _ _ Hin) as (seg & f & people & _ & _ & _ & Hm).
  pose proof (masksFrom_boxes _ _ _ _ Hm sm Hin) as Hb.
  exact (maskToBbox_tight _ _ _ _ Hb).
Qed.

Lemma hitFrom_first_mask people width height px py : forall i l1 sm l2,
  masksFrom people width height [] = Returns (l1 ++ sm :: l2) ->
  isPointInMask (mask sm) width height px py = true ->
  (forall sm', In sm' l1 -> isPointInMask (mask sm') width height px py = false) ->
  exists hit,
    hitFrom i people width height px py = Returns (Some hit)
    /\ hit_bbox hit = mask_bbox sm
    /\ (i + length l1 <= hit_index hit)%nat.
Proof.
  induction people as [|p rest IH]; intros i l1 sm l2 Hm Hp Hbefore;
    cbn [masksFrom] in Hm.
  - destruct l1; discriminate.
  - cbn [hitFrom].
    assert (Hnext : masksFrom rest width height [] = Returns (l1 ++ sm :: l2) ->
      exists hit, hitFrom (S i) rest width height px py = Returns (Some hit)
        /\ hit_bbox hit = mask_bbox sm /\ (i + length l1 <= hit_index hit)%nat).
    { intros Hr. destruct (IH (S i) l1 sm l2 Hr Hp Hbefore) as (hit & Hh & Hb & Hi).
      exists hit. split; [exact Hh|]. split; [exact Hb | lia]. }
    destruct (maskToImageData p) as [[idata|]|]; [| auto | discriminate].
    destruct (maskToBbox idata width height) as [b|] eqn:Eb.
    + rewrite masksFrom_acc in Hm.
      destruct (masksFrom rest width height []) as [l'|] eqn:Er; [|discriminate].
      injection Hm as Hm. cbn in Hm. destruct l1 as [|x l1].
      * injection Hm as <- _. cbn in Hp. rewrite Hp.
        eexists. split; [reflexivity|]. cbn. split; [reflexivity | lia].
      * injection Hm as <- ->.
        pose proof (Hbefore _ (or_introl eq_refl)) as Hx. cbn [mask] in Hx. rewrite Hx.
        destruct (IH (S i) l1 sm l2 eq_refl Hp) as (hit & Hh & Hb & Hi).
        { intros sm' Hin. apply Hbefore. right. exact Hin. }
        exists hit. split; [exact Hh|]. split; [exact Hb | cbn; lia].
    + destruct (isPointInMask idata width height px py); auto.
Qed.

(** X13. The hit test agrees with the masks of the overlay: when
    [getSegmentMasks] returns masks and the point lies on one of them
    (alpha above 128 at its pixel) but on none of the masks before it,
    [getSegmentHitAndBbox] on the same image succeeds and returns the box
    of that mask; the index it returns counts the instances of the
    segmenter, so it is at least the position of the mask in the list. *)
Theorem getSegmentHitAndBbox_agrees_with_masks
    (win : Window) (st : Loader) (image : Image) (px py : Q)
    (l1 l2 : list SegmentMask) (sm : SegmentMask) :
  fst (getSegmentMasks win st image) = l1 ++ sm :: l2 ->
  isPointInMask (mask sm) (imageWidth image) (imageHeight image) px py = true ->
  (forall sm', In sm' l1 ->
     isPointInMask (mask sm') (imageWidth image) (imageHeight image) px py = false) ->
  exists hit,
    fst (getSegmentHitAndBbox win st image px py) = Some hit
    /\ hit_bbox hit = mask_bbox sm
    /\ (length l1 <= hit_index hit)%nat.
Proof.
  intros Hmasks Hp Hbefore.
  assert (Hin : In sm (fst (getSegmentMasks win st image))).
  { rewrite Hmasks. apply in_or_app. right. left. reflexivity. }
  destruct (getSegmentMasks_from _ _ _ _ Hin) as (seg & f & people & Hl & Hf & Hc & Hm).
  rewrite Hmasks in Hm.
  destruct (hitFrom_first_mask people _ _ px py 0%nat l1 sm l2 Hm Hp Hbefore)
    as (hit & Hh & Hb & Hi).
  exists hit. split; [|split; [exact Hb | exact Hi]].
  unfold getSegmentHitAndBbox.
  destruct (loadSegmenter win st) as [seg' st1]. cbn [fst] in Hl. subst seg'.
  rewrite Hf, Hc, Hh.
  destruct people; [destruct l1; discriminate | reflexivity].
Qed.

(** The overlay of the fixtures has one mask; the tap (1.5, 0.5) lies on it. *)
Lemma getSegmentHitAndBbox_agrees_with_masks_witness :
  exists hit,
    fst (getSegmentHitAndBbox win0 loader0 image2x2 (3 # 2) (1 # 2)) = Some hit
    /\ hit_bbox hit = mkBox 1 0 1 1
    /\ (0 <= hit_index hit)%nat.
Proof.
  apply (getSegmentHitAndBbox_agrees_with_masks win0 loader0 image2x2 (3 # 2) (1 # 2)
           [] [] (mkSegmentMask mask2x2 (mkBox 1 0 1 1)));
    [reflexivity | reflexivity | intros sm' []].
Defined.

Lemma getSegmentMasks_boxes_tight_witness :
  exists W H x0 y0 bw bh,
    imageWidth image2x2 = Some W /\ imageHeight image2x2 = Some H
    /\ mkBox 1 0 1 1 = mkBox (inject_Z x0) (inject_Z y0) (inject_Z bw) (inject_Z bh)
    /\ tightBox mask2x2 W H x0 y0 bw bh.
Proof.
  apply (getSegmentMasks_boxes_tight win0 loader0 image2x2
           (mkSegmentMask mask2x2 (mkBox 1 0 1 1))).
  left. reflexivity.
Defined.

(** X14. [maskToBbox] returns [null] for a mask of known size exactly
    when no pixel within the size has alpha above 128. *)
Theorem maskToBbox_null_iff_blank (idata : ImageData) (W H : Z) :
  maskToBbox idata (Some W) (Some H) = None
  <-> forall x y, 0 <= x < W -> 0 <= y < H -> lit idata W x y = false.
Proof.
  split.
  - intros Hnone x y Hx Hy. unfold maskToBbox in Hnone.
    destruct (hasPixel (scanMask idata W H)) eqn:Hp; [discriminate|].
    destruct (lit idata W x y) eqn:Hl; [|reflexivity].
    destruct (scanMask_covers idata W H x y Hx Hy Hl) as [Hhas _]. congruence.
  - intros Hblank.
    destruct (maskToBbox idata (Some W) (Some H)) as [b|] eqn:Eb; [|reflexivity].
    destruct (maskToBbox_tight _ _ _ _ Eb)
      as (W' & H' & x0 & y0 & bw & bh & [= <-] & [= <-] & _ & Ht).
    destruct Ht as (? & ? & ? & _ & _ & _ & _ & (y & Hy & Hl) & _).
    rewrite Hblank in Hl by lia. discriminate.
Qed.

Lemma maskToBbox_null_iff_blank_witness :
  maskToBbox (mkImageData [0; 0; 0; 7]) (Some 1) (Some 1) = None.
Proof.
  apply (maskToBbox_null_iff_blank (mkImageData [0; 0; 0; 7]) 1 1).
  intros x y Hx Hy. assert (x = 0) by lia. assert (y = 0) by lia. subst. reflexivity.
Defined.

End OverlayMasks.

(** ** The crop of a detection *)

Section Crops.
Local Open Scope Q_scope.
Import SegmentMasks JsMath.

Lemma round_at_least (x : Q) (n : Z) : inject_Z n <= x -> (n <= round x)%Z.
Proof.
  intros H. unfold round.
  assert (Hn : (Qfloor (inject_Z n) <= Qfloor (x + (1 # 2)))%Z)
    by (apply Qfloor_resp_le; lra).
  rewrite Qfloor_Z in Hn. exact Hn.
Qed.




End Crops.

(** ** Cosine similarity, further *)

Section CosineFurther.
Local Open Scope R_scope.
Import FeatureEmbedding.









End CosineFurther.

(** ** The gameplay tap, further *)

Section GameplayFurther.
Import Detection FeatureEmbedding Main.

Lemma resolvedModel_events env ev m :
  resolvedModel env = Returns (ev, m) -> ev = [] \/ ev = [SetDetectionModel].
Proof.
  unfold resolvedModel. destruct (storedModel env); [intros [= <- _]; auto|].
  destruct (loadDetectionModel env) as [[m'|]|]; intros [= <- _]; auto.
Qed.

Lemma in_trace_marker found m ev tail :
  ev = [] \/ ev = [SetDetectionModel] ->
  In (OnMarkerFound found) (ShowToast m :: ev ++ tail) -> In (OnMarkerFound found) tail.
Proof.
  intros [-> | ->]; cbn; intros [H|H]; try discriminate; try exact H.
  destruct H as [H|H]; [discriminate | exact H].
Qed.

(** X18. [onMarkerFound] is called only on a class-level match: if the
    tap calls [onMarkerFound(found)], then either the treasure names no
    target class and [found] is [null], or [found] is the target class,
    the detector is available and loaded, it reports detections in the
    frame, and the tap resolves to a detection of the target class. *)
Theorem tryFindTreasure_accepts_only_class_match
    (env : Env) (st : SegmentHelper.Loader) (clickEvent : option ClickEvent)
    (found : option string) :
  In (OnMarkerFound found) (fst (tryFindTreasure env st clickEvent)) ->
  (found = None /\ targetOf (currentTreasure env) = None)
  \/ exists targetObject ev model hit st',
       found = Some targetObject
       /\ targetOf (currentTreasure env) = Some targetObject
       /\ detectionAvailable env = true
       /\ resolvedModel env = Returns (ev, Some model)
       /\ runDetection (Some model) (captureCanvas (frameWidth env) (frameHeight env))
            (mkOptions (Some (5 # 10)%Q)) <> []
       /\ pickDetectionAt (window env) st
            (captureCanvas (frameWidth env) (frameHeight env)) (videoRect env)
            (inject_Z (frameWidth env)) (inject_Z (frameHeight env))
            (tapX clickEvent) (tapY clickEvent)
            (runDetection (Some model) (captureCanvas (frameWidth env) (frameHeight env))
               (mkOptions (Some (5 # 10)%Q)))
            (Some targetObject) = (Some hit, st')
       /\ pick_class hit = targetObject.
Proof.
  unfold tryFindTreasure.
  destruct (targetOf (currentTreasure env)) as [t|] eqn:Et.
  2:{ cbn. intros [[= <-]|[]]. left. auto. }
  destruct (detectionAvailable env) eqn:Eav; cbn [negb].
  2:{ cbn. intros [H|[]]. discriminate. }
  fold (resolvedModel env).
  destruct (resolvedModel env) as [[ev [model|]]|] eqn:Em.
  2:{ cbn. intros [H|[H|[]]]; discriminate. }
  2:{ cbn. intros [H|[H|[]]]; discriminate. }
  pose proof (resolvedModel_events _ _ _ Em) as Hev.
  set (canvas := captureCanvas (frameWidth env) (frameHeight env)).
  set (filtered := runDetection (Some model) canvas (mkOptions (Some (5 # 10)%Q))).
  destruct (Nat.eqb (length filtered) 0) eqn:El.
  { cbn [fst]. intros H. apply (in_trace_marker _ _ _ _ Hev) in H.
    destruct H as [H|[]]. discriminate. }
  destruct (pickDetectionAt _ _ _ _ _ _ _ _ filtered (Some t)) as [[hit|] st'] eqn:Ep.
  2:{ cbn [fst]. intros H. apply (in_trace_marker _ _ _ _ Hev) in H.
      destruct H as [H|[]]. discriminate. }
  destruct (String.eqb (pick_class hit) t) eqn:Ec; cbn [negb].
  2:{ cbn [fst]. intros H. apply (in_trace_marker _ _ _ _ Hev) in H.
      destruct H as [H|[]]. discriminate. }
  apply String.eqb_eq in Ec.
  assert (Hne : filtered <> []) by (intros E; rewrite E in El; discriminate).
  intros H. right. exists t, ev, model, hit, st'.
  assert (Hfound : found = Some t).
  { destruct (referenceOf (currentTreasure env)).
    - destruct (getEmbeddingFromCrop env canvas (pick_bbox hit) _ _) as [cand|].
      + destruct (Rge_dec _ _); cbn [fst] in H;
          apply (in_trace_marker _ _ _ _ Hev) in H;
          destruct H as [H|[H|[]]]; congruence.
      + cbn [fst] in H. apply (in_trace_marker _ _ _ _ Hev) in H.
        destruct H as [H|[H|[]]]; congruence.
    - cbn [fst] in H. apply (in_trace_marker _ _ _ _ Hev) in H.
      destruct H as [H|[]]; congruence. }
  repeat split; assumption.
Qed.

(** A person treasure without a stored embedding: the tap on the person
    is taken on the class-level match alone. *)
Lemma tryFindTreasure_accepts_only_class_match_witness :
  (Some "person"%string = None /\ targetOf (currentTreasure plainEnv) = None)
  \/ exists targetObject ev model hit st',
       Some "person"%string = Some targetObject
       /\ targetOf (currentTreasure plainEnv) = Some targetObject
       /\ detectionAvailable plainEnv = true
       /\ resolvedModel plainEnv = Returns (ev, Some model)
       /\ runDetection (Some model)
            (captureCanvas (frameWidth plainEnv) (frameHeight plainEnv))
            (mkOptions (Some (5 # 10)%Q)) <> []
       /\ pickDetectionAt (window plainEnv) loader0
            (captureCanvas (frameWidth plainEnv) (frameHeight plainEnv))
            (videoRect plainEnv)
            (inject_Z (frameWidth plainEnv)) (inject_Z (frameHeight plainEnv))
            (tapX tap) (tapY tap)
            (runDetection (Some model)
               (captureCanvas (frameWidth plainEnv) (frameHeight plainEnv))
               (mkOptions (Some (5 # 10)%Q)))
            (Some targetObject) = (Some hit, st')
       /\ pick_class hit = targetObject.
Proof.
  apply (tryFindTreasure_accepts_only_class_match plainEnv loader0 tap).
  vm_compute. right. left. reflexivity.
Defined.

(** The trace of a tap that reaches the embedding check. *)
Lemma tryFindTreasure_checked env st clickEvent targetObject ev model hit st' ref :
  let canvas := captureCanvas (frameWidth env) (frameHeight env) in
  let filtered := runDetection (Some model) canvas (mkOptions (Some (5 # 10)%Q)) in
  targetOf (currentTreasure env) = Some targetObject ->
  detectionAvailable env = true ->
  resolvedModel env = Returns (ev, Some model) ->
  filtered <> [] ->
  pickDetectionAt (window env) st canvas (videoRect env)
      (inject_Z (frameWidth env)) (inject_Z (frameHeight env))
      (tapX clickEvent) (tapY clickEvent) filtered (Some targetObject) = (Some hit, st') ->
  pick_class hit = targetObject ->
  referenceOf (currentTreasure env) = Some ref ->
  tryFindTreasure env st clickEvent =
    match getEmbeddingFromCrop env canvas (pick_bbox hit)
            (frameWidth env) (frameHeight env) with
    | Returns candidateEmbedding =>
        if Rge_dec (cosineSimilarity ref candidateEmbedding) FEATURE_SIMILARITY_THRESHOLD
        then (ShowToast MsgDetecting :: ev
                ++ [ShowToast MsgChecking; OnMarkerFound (Some targetObject)], st')
        else (ShowToast MsgDetecting :: ev
                ++ [ShowToast MsgChecking;
                    ShowToast (rejection (currentTreasure env) targetObject)], st')
    | Throws =>
        (ShowToast MsgDetecting :: ev
           ++ [ShowToast MsgChecking; OnMarkerFound (Some targetObject)], st')
    end.
Proof.
  intros canvas filtered Ht Hav Hm Hne Hpick Hcls Href.
  unfold tryFindTreasure. rewrite Ht, Hav. cbn [negb].
  fold (resolvedModel env). rewrite Hm. fold canvas. fold filtered.
  assert (Hlen : Nat.eqb (length filtered) 0 = false).
  { destruct filtered; [congruence | reflexivity]. }
  rewrite Hlen, Hpick, Hcls, String.eqb_refl. cbn [negb]. rewrite Href. reflexivity.
Qed.

(** X19. Embeddings that cannot be compared are a rejection: when the
    class-level match has succeeded and the treasure stores a reference
    embedding, a candidate embedding of another length (the empty one
    that [getEmbedding] returns without TensorFlow included) never calls
    [onMarkerFound]; the tap ends with the rejection toast. *)
Theorem tryFindTreasure_rejects_other_length
    (env : Env) (st : SegmentHelper.Loader) (clickEvent : option ClickEvent)
    (targetObject : string) (ev : list Event) (model : Model)
    (hit : Pick) (st' : SegmentHelper.Loader) (ref cand : list R) :
  let canvas := captureCanvas (frameWidth env) (frameHeight env) in
  let filtered := runDetection (Some model) canvas (mkOptions (Some (5 # 10)%Q)) in
  targetOf (currentTreasure env) = Some targetObject ->
  detectionAvailable env = true ->
  resolvedModel env = Returns (ev, Some model) ->
  filtered <> [] ->
  pickDetectionAt (window env) st canvas (videoRect env)
      (inject_Z (frameWidth env)) (inject_Z (frameHeight env))
      (tapX clickEvent) (tapY clickEvent) filtered (Some targetObject) = (Some hit, st') ->
  pick_class hit = targetObject ->
  referenceOf (currentTreasure env) = Some ref ->
  getEmbeddingFromCrop env canvas (pick_bbox hit) (frameWidth env) (frameHeight env)
    = Returns cand ->
  length cand <> length ref ->
  (forall found, ~ In (OnMarkerFound found) (fst (tryFindTreasure env st clickEvent)))
  /\ tryFindTreasure env st clickEvent
     = (ShowToast MsgDetecting :: ev
          ++ [ShowToast MsgChecking;
              ShowToast (rejection (currentTreasure env) targetObject)], st').
Proof.
  intros canvas filtered Ht Hav Hm Hne Hpick Hcls Href Hcand Hlen.
  pose proof (tryFindTreasure_checked env st clickEvent targetObject ev model hit st' ref
                Ht Hav Hm Hne Hpick Hcls Href) as Hrun.
  fold canvas in Hrun. rewrite Hcand in Hrun.
  assert (Hzero : cosineSimilarity ref cand = 0%R).
  { apply cosineSimilarity_zero. right. right. left. congruence. }
  rewrite Hzero in Hrun.
  destruct (Rge_dec 0 FEATURE_SIMILARITY_THRESHOLD) as [Hge|_].
  { exfalso. unfold FEATURE_SIMILARITY_THRESHOLD in Hge. lra. }
  split; [|exact Hrun].
  intros found Hin. rewrite Hrun in Hin. cbn [fst] in Hin.
  apply (in_trace_marker _ _ _ _ (resolvedModel_events _ _ _ Hm)) in Hin.
  destruct Hin as [H|[H|[]]]; discriminate.
Qed.

(** The game of the fixtures with an embedder that returns the empty
    vector: the person under the tap is turned down. *)
Lemma tryFindTreasure_rejects_other_length_witness :
  tryFindTreasure emptyEnv loader0 tap
  = ([ShowToast MsgDetecting; ShowToast MsgChecking; ShowToast MsgNotThatOne], loader0).
Proof.
  destruct (tryFindTreasure_rejects_other_length emptyEnv loader0 tap "person" []
              personModel (mkPick "person" (mkBox 0 0 2 2)) loader0 [1; 0]%R []) as [_ H];
    [reflexivity | reflexivity | reflexivity | discriminate | reflexivity | reflexivity
    | reflexivity | reflexivity | discriminate |].
  exact H.
Defined.

End GameplayFurther.

(** ** The overlay view *)

Section Overlay.
Local Open Scope Q_scope.
Import CaptureEditModel Viewers.

Lemma render_retries_bounded v cw ch :
  (layoutRetries v <= MAX_LAYOUT_RETRIES)%nat ->
  (layoutRetries (fst (render v cw ch)) <= MAX_LAYOUT_RETRIES)%nat.
Proof.
  intros Hle. unfold render.
  destruct (attached v); cbn [negb]; [|exact Hle].
  destruct ((cw =? 0)%Z || (ch =? 0)%Z).
  - destruct (layoutRetries v <? MAX_LAYOUT_RETRIES)%nat eqn:E; [|exact Hle].
    apply Nat.ltb_lt in E. cbn. unfold MAX_LAYOUT_RETRIES in *. lia.
  - destruct (falsy (view_sourceWidth v) || falsy (view_sourceHeight v));
      [|destruct (fit v)]; cbn; unfold MAX_LAYOUT_RETRIES; lia.
Qed.

Lemma render_attached v cw ch : attached (fst (render v cw ch)) = attached v.
Proof.
  unfold render. destruct (attached v) eqn:Ea; cbn [negb]; [|exact Ea].
  destruct ((cw =? 0)%Z || (ch =? 0)%Z).
  - destruct (layoutRetries v <? MAX_LAYOUT_RETRIES)%nat; [reflexivity | exact Ea].
  - destruct (falsy (view_sourceWidth v) || falsy (view_sourceHeight v));
      [|destruct (fit v)]; reflexivity.
Qed.

Lemma framesRequested_app e1 e2 :
  framesRequested (e1 ++ e2) = (framesRequested e1 + framesRequested e2)%nat.
Proof. unfold framesRequested. rewrite List.filter_app, length_app. reflexivity. Qed.

(** X20. Waiting for layout is bounded: on an attached view that has not
    used up its retries, a run of [render] calls that all find the
    container with zero width or height requests one animation frame per
    call until MAX_LAYOUT_RETRIES (60) have been used since the last
    successful layout, and none after that; the retry counter never
    exceeds 60, and a [render] that finds a container of non-zero size
    sets it back to 0. *)
Theorem render_retries_at_most_60 (v : OverlayView) :
  attached v = true -> (layoutRetries v <= MAX_LAYOUT_RETRIES)%nat ->
  (forall sizes,
     (forall cw ch, In (cw, ch) sizes -> cw = 0%Z \/ ch = 0%Z) ->
     framesRequested (snd (renderAll v sizes))
       = Nat.min (length sizes) (MAX_LAYOUT_RETRIES - layoutRetries v)
     /\ layoutRetries (fst (renderAll v sizes))
       = Nat.min (layoutRetries v + length sizes) MAX_LAYOUT_RETRIES)
  /\ (forall sizes,
        (layoutRetries (fst (renderAll v sizes)) <= MAX_LAYOUT_RETRIES)%nat)
  /\ (forall cw ch, cw <> 0%Z -> ch <> 0%Z ->
        layoutRetries (fst (render v cw ch)) = 0%nat).
Proof.
  intros Hatt Hle. split; [|split].
  - intros sizes. revert v Hatt Hle.
    induction sizes as [|[cw ch] rest IH]; intros v Hatt Hle Hzero.
    + cbn. split; [reflexivity | lia].
    + cbn [renderAll length].
      assert (Hz : ((cw =? 0)%Z || (ch =? 0)%Z) = true).
      { destruct (Hzero cw ch (or_introl eq_refl)) as [-> | ->];
          [reflexivity | apply orb_true_r]. }
      assert (Hrest : forall cw ch, In (cw, ch) rest -> cw = 0%Z \/ ch = 0%Z).
      { intros a b Hin. apply Hzero. right. exact Hin. }
      unfold render. rewrite Hatt, Hz. cbn [negb].
      destruct (layoutRetries v <? MAX_LAYOUT_RETRIES)%nat eqn:E.
      * apply Nat.ltb_lt in E.
        set (v1 := mkOverlayView _ _ _ _ _ _ _ _ _).
        assert (Hatt' : attached v1 = true) by reflexivity.
        assert (Hle' : (layoutRetries v1 <= MAX_LAYOUT_RETRIES)%nat)
          by (subst v1; cbn [layoutRetries]; lia).
        destruct (IH v1 Hatt' Hle' Hrest) as [Hf Hr].
        destruct (renderAll v1 rest) as [v2 e2]. cbn [fst snd] in *.
        rewrite framesRequested_app, Hf, Hr. subst v1. cbn [layoutRetries].
        change (framesRequested [RequestAnimationFrame]) with 1%nat.
        unfold MAX_LAYOUT_RETRIES in *. lia.
      * apply Nat.ltb_ge in E.
        destruct (IH v Hatt Hle Hrest) as [Hf Hr].
        destruct (renderAll v rest) as [v2 e2]. cbn [fst snd app] in *.
        rewrite Hf, Hr. unfold MAX_LAYOUT_RETRIES in *. lia.
  - intros sizes. revert v Hatt Hle.
    induction sizes as [|[cw ch] rest IH]; intros v Hatt Hle; [exact Hle|].
    cbn [renderAll].
    pose proof (render_attached v cw ch) as Hatt'. rewrite Hatt in Hatt'.
    pose proof (render_retries_bounded v cw ch Hle) as Hle'.
    destruct (render v cw ch) as [v1 e1]. cbn [fst] in *.
    specialize (IH v1 Hatt' Hle').
    destruct (renderAll v1 rest) as [v2 e2]. exact IH.
  - intros cw ch Hcw Hch. unfold render. rewrite Hatt. cbn [negb].
    assert (Hz : ((cw =? 0)%Z || (ch =? 0)%Z) = false).
    { apply orb_false_iff. split; apply Z.eqb_neq; assumption. }
    rewrite Hz.
    destruct (falsy (view_sourceWidth v) || falsy (view_sourceHeight v));
      [|destruct (fit v)]; reflexivity.
Qed.

(** Seventy renders before layout request sixty frames. *)
Lemma render_retries_at_most_60_witness :
  framesRequested (snd (renderAll freshView notLaidOut)) = 60%nat.
Proof.
  destruct (render_retries_at_most_60 freshView eq_refl) as [H _];
    [unfold MAX_LAYOUT_RETRIES; cbn; lia|].
  destruct (H notLaidOut) as [Hf _].
  - intros cw ch Hin. apply repeat_spec in Hin. injection Hin as -> _. left. reflexivity.
  - rewrite Hf. reflexivity.
Defined.

Lemma matching_matchedUpTo preds masks :
  exists used,
    matchedUpTo preds masks (length preds)
      (matchPredictionsToSegmentMasks preds masks) used.
Proof.
  unfold matchPredictionsToSegmentMasks.
  destruct masks as [|sm0 masks].
  - exists ∅.
    pose proof (matchedUpTo_start preds []) as (H1 & H2 & H3 & H4 & _).
    split; [|split; [|split; [|split]]]; try assumption.
    + intros k j Hk. rewrite lookup_empty in Hk. discriminate.
    + intros k _ _ (p & j & sm & _ & Hsm & _). rewrite lookup_nil in Hsm. discriminate.
  - apply (matchFrom_matchedUpTo preds (sm0 :: masks) preds 0 ∅ ∅).
    + intros k. reflexivity.
    + apply matchedUpTo_start.
Qed.

Lemma drawPlan_lookup preds masks opts i it :
  drawPredictionsWithSegments preds masks opts !! i = Some it ->
  exists p, drawn opts preds !! i = Some p
    /\ it = drawItem opts masks
              (matchPredictionsToSegmentMasks (drawn opts preds) masks) i p.
Proof.
  unfold drawPredictionsWithSegments. rewrite list_lookup_imap.
  destruct (drawn opts preds !! i) as [p|]; [|discriminate].
  cbn. intros [= <-]. exists p. auto.
Qed.

Lemma drawItem_segment opts masks m i p j s :
  item_shape (drawItem opts masks m i p) = SegmentShape j s ->
  m !! i = Some j /\ masks !! j = Some s.
Proof.
  unfold drawItem. cbn [item_shape].
  destruct (m !! i) as [j'|]; cbn; [|discriminate].
  destruct (masks !! j') as [s'|] eqn:Es; cbn; [|discriminate].
  intros [= <- <-]. auto.
Qed.

(** X21. The overlay draws every detection that passes its filter (a
    score, 1 when missing, of at least the threshold, 0.5 when unset)
    once and in order, labelled with its class and its rounded
    percentage; a detection is drawn as a mask only with a mask of the
    list whose box has an IoU above 0.2 with its own, and no mask is drawn
    for two detections. *)
Theorem drawPredictionsWithSegments_plan
    (predictions : list Prediction) (segmentMasks : list SegmentMask)
    (opts : DrawOptions) :
  let kept := drawn opts predictions in
  let items := drawPredictionsWithSegments predictions segmentMasks opts in
  (forall p, In p kept <->
     In p predictions
     /\ default (5 # 10) (opt_scoreThreshold opts) <= default 1 (score p))
  /\ length items = length kept
  /\ (forall i it, items !! i = Some it ->
        exists p, kept !! i = Some p /\ item_index it = i
                  /\ item_class it = class p
                  /\ item_scorePct it = JsMath.round (default 0 (score p) * 100))
  /\ (forall i it j s, items !! i = Some it -> item_shape it = SegmentShape j s ->
        segmentMasks !! j = Some s
        /\ exists p, kept !! i = Some p /\ 2 # 10 < iouOf (bbox p) (mask_bbox s))
  /\ (forall i1 i2 it1 it2 j s1 s2,
        items !! i1 = Some it1 -> items !! i2 = Some it2 ->
        item_shape it1 = SegmentShape j s1 -> item_shape it2 = SegmentShape j s2 ->
        i1 = i2).
Proof.
  intros kept items.
  destruct (matching_matchedUpTo kept segmentMasks) as (used & _ & _ & Hinj & Hgood & _).
  split; [|split; [|split; [|split]]].
  - intros p. unfold kept, drawn. rewrite filter_In, leb_true. reflexivity.
  - unfold items, drawPredictionsWithSegments. apply length_imap.
  - intros i it Hit. apply drawPlan_lookup in Hit. destruct Hit as (p & Hp & ->).
    exists p. repeat split; try reflexivity. exact Hp.
  - intros i it j s Hit Hshape.
    apply drawPlan_lookup in Hit. destruct Hit as (p & Hp & ->).
    apply drawItem_segment in Hshape. destruct Hshape as [Hm Hs].
    split; [exact Hs|]. exists p. split; [exact Hp|].
    destruct (Hgood i j Hm) as (p' & s' & Hp' & Hs' & _ & Hiou & _).
    fold kept in Hp. rewrite Hp in Hp'. injection Hp' as <-.
    rewrite Hs in Hs'. injection Hs' as <-. exact Hiou.
  - intros i1 i2 it1 it2 j s1 s2 H1 H2 Hs1 Hs2.
    apply drawPlan_lookup in H1. destruct H1 as (p1 & _ & ->).
    apply drawPlan_lookup in H2. destruct H2 as (p2 & _ & ->).
    apply drawItem_segment in Hs1. apply drawItem_segment in Hs2.
    exact (Hinj i1 i2 j (proj1 Hs1) (proj1 Hs2)).
Qed.

(** The two detections over one mask of the fixtures: both are drawn,
    only the first as a mask. *)
Lemma drawPredictionsWithSegments_plan_witness :
  exists it1 it2,
    drawPredictionsWithSegments twoPredictions oneMask liveOptions = [it1; it2]
    /\ segmentIdxOf it1 = Some 0%nat /\ segmentIdxOf it2 = None.
Proof.
  destruct (drawPredictionsWithSegments_plan twoPredictions oneMask liveOptions)
    as (_ & Hlen & _).
  destruct (drawPredictionsWithSegments twoPredictions oneMask liveOptions)
    as [|it1 [|it2 [|it3 rest]]] eqn:E; try discriminate Hlen.
  exists it1, it2. split; [reflexivity|].
  assert (E' : drawPredictionsWithSegments twoPredictions oneMask liveOptions !! 0%nat
               = Some it1 /\
               drawPredictionsWithSegments twoPredictions oneMask liveOptions !! 1%nat
               = Some it2) by (rewrite E; split; reflexivity).
  destruct E' as [E1 E2]. clear E.
  vm_compute in E1. injection E1 as <-. vm_compute in E2. injection E2 as <-.
  split; reflexivity.
Defined.



End Overlay.

(** ** The capture-edit model *)

Section EditModelProperties.
Import CaptureEditModel EditModel.

Lemma findIndexFrom_spec cls l : forall k,
  match findIndexFrom k cls l with
  | Some i =>
      (k <= i)%nat
      /\ exists p, l !! (i - k)%nat = Some p /\ class p = cls
         /\ forall j q, (j < i - k)%nat -> l !! j = Some q -> class q <> cls
  | None => forall q, In q l -> class q <> cls
  end.
Proof.
  induction l as [|p rest IH]; intros k; cbn [findIndexFrom].
  - intros q [].
  - destruct (String.eqb (class p) cls) eqn:E.
    + apply String.eqb_eq in E. split; [lia|]. exists p. rewrite Nat.sub_diag.
      split; [reflexivity|]. split; [exact E|]. intros j q Hj. lia.
    + apply String.eqb_neq in E. specialize (IH (S k)).
      destruct (findIndexFrom (S k) cls rest) as [i|].
      * destruct IH as (Hle & q & Hq & Hcls & Hfirst). split; [lia|].
        exists q. replace (i - k)%nat with (S (i - S k)) by lia.
        split; [exact Hq|]. split; [exact Hcls|].
        intros j r Hj Hr. destruct j as [|j]; [cbn in Hr; congruence|].
        apply (Hfirst j r); [lia | exact Hr].
      * intros q [<-|Hq]; [exact E | exact (IH q Hq)].
Qed.

Lemma selection_first cls preds :
  match (if (0 <? length preds)%nat then findIndex cls preds else None) with
  | Some i =>
      exists p, preds !! i = Some p /\ class p = cls
        /\ forall j q, (j < i)%nat -> preds !! j = Some q -> class q <> cls
  | None => forall q, In q preds -> class q <> cls
  end.
Proof.
  destruct preds as [|p0 rest]; [intros q []|].
  cbn [length Nat.ltb Nat.leb]. unfold findIndex.
  pose proof (findIndexFrom_spec cls (p0 :: rest) 0) as H.
  destruct (findIndexFrom 0 cls (p0 :: rest)) as [i|]; [|exact H].
  destruct H as (_ & p & Hp & Hcls & Hfirst). rewrite Nat.sub_0_r in *.
  exists p. auto.
Qed.

Lemma loadFromTreasure_first_of_class m treasure :
  selectsFirstOfClass (fst (loadFromTreasure m treasure)).
Proof.
  unfold loadFromTreasure, selectsFirstOfClass.
  cbn [fst m_selectedIndex m_selectedClass m_predictions].
  destruct (orNull (detectedObject treasure)) as [cls|] eqn:Ec.
  - assert (Hid : orNull (Some cls) = Some cls).
    { unfold orNull in *. destruct (detectedObject treasure) as [c|]; [|discriminate].
      destruct (truthy c) eqn:Et; [|discriminate]. injection Ec as <-.
      rewrite Et. reflexivity. }
    pose proof (selection_first cls (default [] (predictions treasure))) as H.
    destruct (if (0 <? _)%nat then _ else _) as [i|].
    + destruct H as (p & Hp & Hcls & Hfirst). exists p, cls. auto.
    + rewrite Hid. intros c q [= <-]. apply H.
  - intros cls q Hc. discriminate.
Qed.



Lemma orNull_idempotent s : orNull (orNull s) = orNull s.
Proof.
  destruct s as [v|]; [|reflexivity]. cbn. destruct (truthy v) eqn:E; [|reflexivity].
  cbn. rewrite E. reflexivity.
Qed.

(** X24. Saving and reloading keeps what was captured but not which
    instance was picked: loading the treasure made of the payload of a
    model gives back its predictions, masks, source size, image (when not
    empty) and selected class, while the selected index becomes that of
    the first detection of the selected class; for a model that was itself
    loaded from a treasure the selected index is given back too. *)
Theorem getCapturePayload_reload (m0 m : Model) :
  let m' := fst (loadFromTreasure m0 (asTreasure (getCapturePayload m))) in
  (m_imageData m' = orNull (m_imageData m)
   /\ m_predictions m' = m_predictions m
   /\ m_segmentMasks m' = m_segmentMasks m
   /\ m_selectedClass m' = orNull (m_selectedClass m)
   /\ (m_sourceWidth m' == m_sourceWidth m)%Q
   /\ (m_sourceHeight m' == m_sourceHeight m)%Q
   /\ selectsFirstOfClass m')
  /\ (forall m1 treasure, m = fst (loadFromTreasure m1 treasure) ->
        m_selectedIndex m' = m_selectedIndex m
        /\ m_imageData m' = m_imageData m
        /\ m_selectedClass m' = m_selectedClass m).
Proof.
  intros m'. split.
  - assert (Hz : forall v, ((if falsy v then 0 else v) == v)%Q).
    { intros v. destruct (falsy v) eqn:E; [|reflexivity].
      apply falsy_true in E. symmetry. exact E. }
    repeat split; try reflexivity; try apply Hz.
    subst m'. apply loadFromTreasure_first_of_class.
  - intros m1 t ->. subst m'. unfold loadFromTreasure, asTreasure, getCapturePayload.
    cbn [fst m_selectedIndex m_selectedClass m_imageData m_predictions
         pl_capturedImage pl_detectedObject pl_predictions
         capturedImage detectedObject predictions default].
    rewrite !orNull_idempotent. repeat split; reflexivity.
Qed.

(** The second person is picked by hand; after saving and reloading the
    first one is selected. *)
Lemma getCapturePayload_reload_witness :
  m_selectedIndex
    (fst (setSelectedByClass (fst (loadFromTreasure empty twoPersons))
            (Some "person"%string) (Some 2%nat))) = Some 2%nat
  /\ m_selectedIndex
       (fst (loadFromTreasure empty
               (asTreasure
                  (getCapturePayload
                     (fst (setSelectedByClass (fst (loadFromTreasure empty twoPersons))
                             (Some "person"%string) (Some 2%nat)))))))
     = Some 1%nat
  /\ selectsFirstOfClass
       (fst (loadFromTreasure empty
               (asTreasure
                  (getCapturePayload
                     (fst (setSelectedByClass (fst (loadFromTreasure empty twoPersons))
                             (Some "person"%string) (Some 2%nat))))))).
Proof.
  split; [reflexivity|]. split; [reflexivity|].
  apply (getCapturePayload_reload empty).
Defined.

Lemma act_listeners m a :
  (snd (act m a) = [] \/ snd (act m a) = m_listeners m)
  /\ m_listeners (fst (act m a))
     = match a with
       | Subscribe fn => m_listeners (subscribe m fn)
       | Unsubscribe fn => m_listeners (unsubscribe m fn)
       | _ => m_listeners m
       end.
Proof.
  destruct a; cbn [act];
    unfold initFromTreasure, runDetectionAsync, setFromCapture, loadFromTreasure,
      clear, setSelectedIndex, setSelectedByClass, notify;
    repeat match goal with
           | |- context [match ?x with _ => _ end] => destruct x
           end;
    cbn [fst snd m_listeners];
    (split; [first [left; reflexivity | right; reflexivity] | reflexivity]).
Qed.

Lemma subscribe_listeners m fn :
  List.NoDup (m_listeners m) ->
  List.NoDup (m_listeners (subscribe m fn))
  /\ forall g, In g (m_listeners (subscribe m fn)) <-> g = fn \/ In g (m_listeners m).
Proof.
  intros Hnd. unfold subscribe. cbn [m_listeners].
  destruct (existsb (Nat.eqb fn) (m_listeners m)) eqn:E.
  - split; [exact Hnd|]. intros g. split; [auto|]. intros [->|H]; [|exact H].
    apply existsb_exists in E. destruct E as (x & Hx & Ex).
    apply Nat.eqb_eq in Ex. subst x. exact Hx.
  - assert (Hnot : ~ In fn (m_listeners m)).
    { intros Hin. assert (existsb (Nat.eqb fn) (m_listeners m) = true).
      { apply existsb_exists. exists fn. split; [exact Hin | apply Nat.eqb_refl]. }
      congruence. }
    split.
    + apply List.NoDup_app; [exact Hnd | constructor; [intros [] | constructor] |].
      intros x Hx [<-|[]]. exact (Hnot Hx).
    + intros g. rewrite in_app_iff. cbn. split; intros [H|H]; auto.
      destruct H as [<-|[]]. auto.
Qed.

Lemma unsubscribe_listeners m fn :
  List.NoDup (m_listeners m) ->
  List.NoDup (m_listeners (unsubscribe m fn))
  /\ forall g, In g (m_listeners (unsubscribe m fn)) <-> g <> fn /\ In g (m_listeners m).
Proof.
  intros Hnd. unfold unsubscribe. cbn [m_listeners]. split.
  - apply List.NoDup_filter. exact Hnd.
  - intros g. rewrite filter_In, negb_true_iff, Nat.eqb_neq. split; intros [H1 H2]; auto.
Qed.

Lemma run_listeners fn actions : forall m b,
  List.NoDup (m_listeners m) ->
  (In fn (m_listeners m) <-> b = true) ->
  List.NoDup (m_listeners (fst (run m actions)))
  /\ (forall called, In called (snd (run m actions)) -> List.NoDup called)
  /\ (In fn (m_listeners (fst (run m actions))) <-> subscribedAfter fn b actions = true).
Proof.
  induction actions as [|a rest IH]; intros m b Hnd Hb.
  - cbn. split; [exact Hnd|]. split; [intros c []| exact Hb].
  - cbn [run]. destruct (act_listeners m a) as [Hcalled Hls].
    destruct (act m a) as [m1 called] eqn:Ea. cbn [fst snd] in *.
    set (b1 := match a with
               | Subscribe g => if Nat.eqb g fn then true else b
               | Unsubscribe g => if Nat.eqb g fn then false else b
               | _ => b
               end).
    assert (H1 : List.NoDup (m_listeners m1) /\ (In fn (m_listeners m1) <-> b1 = true)).
    { rewrite Hls. subst b1. destruct a; try (split; assumption).
      - destruct (subscribe_listeners m fn0 Hnd) as [Hn Hin]. split; [exact Hn|].
        rewrite Hin. destruct (Nat.eqb fn0 fn) eqn:E.
        + apply Nat.eqb_eq in E. subst. tauto.
        + apply Nat.eqb_neq in E. rewrite <- Hb. split; [intros [H|H]; congruence || exact H | auto].
      - destruct (unsubscribe_listeners m fn0 Hnd) as [Hn Hin]. split; [exact Hn|].
        rewrite Hin. destruct (Nat.eqb fn0 fn) eqn:E.
        + apply Nat.eqb_eq in E. subst. split; [intros [H _]; congruence | discriminate].
        + apply Nat.eqb_neq in E. rewrite <- Hb. split; [tauto | split; [congruence | assumption]]. }
    destruct H1 as [Hnd1 Hb1].
    destruct (IH m1 b1 Hnd1 Hb1) as (Hn & Hc & Hs).
    destruct (run m1 rest) as [m2 calls]. cbn [fst snd] in *.
    split; [exact Hn|]. split; [|exact Hs].
    intros c [<-|Hin]; [|exact (Hc c Hin)].
    destruct Hcalled as [-> | ->]; [constructor | exact Hnd].
Qed.

(** X25. Listeners are a set: in any run of subscriptions,
    unsubscriptions and changes on a new model, a listener is subscribed
    after the run exactly when the last of its subscriptions and
    unsubscriptions was a subscription; no change calls a listener twice,
    however often it was subscribed; and every change calls either nobody
    (a [runDetectionAsync] that gives up) or exactly the listeners
    subscribed at that moment, in the order of subscription. *)
Theorem listeners_called_once (actions : list Action) :
  List.NoDup (m_listeners (fst (run empty actions)))
  /\ (forall called, In called (snd (run empty actions)) -> List.NoDup called)
  /\ (forall fn, In fn (m_listeners (fst (run empty actions)))
                 <-> subscribedAfter fn false actions = true)
  /\ (forall m a, snd (act m a) = [] \/ snd (act m a) = m_listeners m).
Proof.
  assert (Hstart : List.NoDup (m_listeners empty)) by constructor.
  assert (Hnone : forall fn, In fn (m_listeners empty) <-> false = true).
  { intros fn. cbn. split; [intros [] | discriminate]. }
  destruct (run_listeners 0 actions empty false Hstart (Hnone 0%nat)) as (H1 & H2 & _).
  split; [exact H1|]. split; [exact H2|]. split.
  - intros fn.
    destruct (run_listeners fn actions empty false Hstart (Hnone fn)) as (_ & _ & H3).
    exact H3.
  - intros m a. apply act_listeners.
Qed.

(** Listener 7 subscribes twice and is called once by [clear]; after it
    unsubscribes nobody is called. *)
Lemma listeners_called_once_witness :
  snd (run empty [Subscribe 7; Subscribe 7; Clear; Unsubscribe 7; Clear])
  = [[]; []; [7%nat]; []; []]
  /\ List.NoDup
       (m_listeners (fst (run empty [Subscribe 7; Subscribe 7; Clear; Unsubscribe 7; Clear]))).
Proof.
  split; [reflexivity|].
  destruct (listeners_called_once [Subscribe 7; Subscribe 7; Clear; Unsubscribe 7; Clear])
    as (Hset & _).
  exact Hset.
Defined.

End EditModelProperties.

(** ** The game loop of src/main.js *)

Section Game.
Import GameLoop.
Local Open Scope Q_scope.

Lemma count_cons f e events :
  count f (e :: events) = ((if f e then 1 else 0) + count f events)%nat.
Proof. unfold count. cbn. destruct (f e); reflexivity. Qed.




(** Index, activity and timer move together along any course of a game. *)
Lemma play_progress gameData events : forall g k,
  currentTreasureIndex g = k ->
  isGameActive g = (k <? length (treasures gameData))%nat ->
  scoreTimer g = isGameActive g ->
  let g' := play gameData g events in
  currentTreasureIndex g' = (k + count isProceed events)%nat
  /\ isGameActive g' = (k + count isProceed events <? length (treasures gameData))%nat
  /\ scoreTimer g' = isGameActive g'.
Proof.
  induction events as [|e events IH]; intros g k Hk Ha Ht; cbn zeta.
  - unfold count. cbn. rewrite Nat.add_0_r. auto.
  - rewrite count_cons. unfold play. cbn [fold_left].
    destruct e as [|correct|]; cbn [step isProceed].
    + replace (k + (0 + count isProceed events))%nat
        with (k + count isProceed events)%nat by lia.
      apply IH; unfold tick; destruct (scoreTimer g && isGameActive g); cbn; assumption.
    + replace (k + (0 + count isProceed events))%nat
        with (k + count isProceed events)%nat by lia.
      apply IH; unfold handleAnswerSubmit; destruct correct; cbn; assumption.
    + replace (k + (1 + count isProceed events))%nat
        with (S k + count isProceed events)%nat by lia.
      apply IH; unfold proceedToNext; fold (treasures gameData); rewrite Hk.
      * destruct (length (treasures gameData) <=? S k)%nat; reflexivity.
      * destruct (Nat.leb_spec (length (treasures gameData)) (S k)) as [Hle|Hgt];
          cbn [isGameActive].
        -- symmetry. apply Nat.ltb_ge. exact Hle.
        -- rewrite Ha. destruct (Nat.ltb_spec k (length (treasures gameData))) as [_|Hge];
             [symmetry; apply Nat.ltb_lt; exact Hgt | lia].
      * destruct (length (treasures gameData) <=? S k)%nat;
          cbn [isGameActive scoreTimer]; [reflexivity | exact Ht].
Qed.

(** X26: a started game stays in step with its treasures.  After any course
    of timer ticks, answers and moves to the next treasure, the index of the
    current treasure is the number of moves made, the game is active exactly
    while that number is below the number of treasures, the score timer is
    set exactly while the game is active, and an active game always has a
    current treasure. *)
Theorem game_keeps_a_current_treasure gameData g0 events :
  initGame gameData = Some g0 ->
  let g := play gameData g0 events in
  currentTreasureIndex g = count isProceed events
  /\ isGameActive g = (count isProceed events <? length (treasures gameData))%nat
  /\ scoreTimer g = isGameActive g
  /\ (isGameActive g = true ->
      exists t, treasures gameData !! currentTreasureIndex g = Some t).
Proof.
  intros Hinit. cbn zeta.
  assert (Hstart : g0 = startGame gameData /\ (0 < length (treasures gameData))%nat).
  { unfold initGame in Hinit. unfold treasures.
    destruct (items gameData) as [[|t ts]|]; try discriminate.
    split; [congruence | cbn; lia]. }
  destruct Hstart as [-> Hlen].
  destruct (play_progress gameData events (startGame gameData) 0) as (Hi & Ha & Ht).
  - reflexivity.
  - cbn [startGame isGameActive]. symmetry. apply Nat.ltb_lt. exact Hlen.
  - reflexivity.
  - cbn [Nat.add] in Hi, Ha. repeat split; try assumption.
    intros Hact. rewrite Ha in Hact. apply Nat.ltb_lt in Hact.
    rewrite Hi. apply lookup_lt_is_Some_2. exact Hact.
Qed.

Lemma game_keeps_a_current_treasure_witness :
  currentTreasureIndex (play twoTreasures (startGame twoTreasures)
                          [Tick; Answer true; Proceed; Tick]) = 1%nat
  /\ isGameActive (play twoTreasures (startGame twoTreasures)
                     [Tick; Answer true; Proceed; Tick; Proceed; Tick]) = false.
Proof.
  split.
  - destruct (game_keeps_a_current_treasure twoTreasures (startGame twoTreasures)
                [Tick; Answer true; Proceed; Tick] eq_refl) as (Hi & _).
    exact Hi.
  - destruct (game_keeps_a_current_treasure twoTreasures (startGame twoTreasures)
                [Tick; Answer true; Proceed; Tick; Proceed; Tick] eq_refl) as (_ & Ha & _).
    exact Ha.
Defined.



End Game.

(** ** The levels store of unnamed/part_004 *)

Section LevelsStore.
Import GameLoop Levels.
Local Open Scope Q_scope.

Lemma loadRaw_saveRaw data st : hasRoom st -> loadRaw (saveRaw data st) = data.
Proof.
  intros Hroom. unfold saveRaw. rewrite Hroom. destruct data; reflexivity.
Qed.

Lemma hasRoom_saveRaw data st : hasRoom st -> hasRoom (saveRaw data st).
Proof.
  intros Hroom d. unfold saveRaw. rewrite Hroom. cbn. apply Hroom.
Qed.

Lemma hasId_true id l : hasId id l = true <-> level_id l = id.
Proof. unfold hasId. apply String.eqb_eq. Qed.

Lemma hasId_other id id' l : hasId id l = true -> id' <> id -> hasId id' l = false.
Proof.
  intros H Hne. apply hasId_true in H. unfold hasId. apply String.eqb_neq. congruence.
Qed.

Lemma find_insert_at {A} (f : A -> bool) (l : list A) : forall i x,
  findIndex f l = Some i -> f x = true -> List.find f (<[i := x]> l) = Some x.
Proof.
  induction l as [|a l IH]; intros i x Hi Hx; [discriminate|].
  cbn in Hi. destruct (f a) eqn:Ha.
  - injection Hi as <-. cbn. rewrite Hx. reflexivity.
  - destruct (findIndex f l) as [j|]; [|discriminate]. injection Hi as <-.
    cbn. rewrite Ha. apply IH; [reflexivity | exact Hx].
Qed.

Lemma find_insert_other {A} (f g : A -> bool) (l : list A) : forall i x,
  findIndex f l = Some i -> (forall y, f y = true -> g y = false) -> g x = false ->
  List.find g (<[i := x]> l) = List.find g l.
Proof.
  induction l as [|a l IH]; intros i x Hi Hfg Hx; [discriminate|].
  cbn in Hi. destruct (f a) eqn:Ha.
  - injection Hi as <-. cbn. rewrite Hx, (Hfg a Ha). reflexivity.
  - destruct (findIndex f l) as [j|]; [|discriminate]. injection Hi as <-.
    cbn. destruct (g a); [reflexivity|]. apply IH; [reflexivity | exact Hfg | exact Hx].
Qed.

Lemma find_findIndex {A} (f : A -> bool) (l : list A) :
  match findIndex f l with
  | Some i => exists y, List.find f l = Some y /\ (i < length l)%nat
  | None => List.find f l = None
  end.
Proof.
  induction l as [|a l IH]; [reflexivity|].
  cbn. destruct (f a).
  - exists a. split; [reflexivity | lia].
  - destruct (findIndex f l) as [j|]; cbn.
    + destruct IH as (y & Hy & Hj). exists y. split; [exact Hy | lia].
    + exact IH.
Qed.

Lemma find_app_last {A} (f : A -> bool) (l : list A) x :
  List.find f l = None -> List.find f (l ++ [x]) = (if f x then Some x else None).
Proof.
  induction l as [|a l IH]; intros H; [reflexivity|].
  cbn in *. destruct (f a); [discriminate|]. apply IH. exact H.
Qed.

Lemma find_app_other {A} (g : A -> bool) (l : list A) x :
  g x = false -> List.find g (l ++ [x]) = List.find g l.
Proof.
  intros Hx. induction l as [|a l IH]; cbn; [rewrite Hx; reflexivity|].
  destruct (g a); [reflexivity | exact IH].
Qed.

Lemma length_insert_at {A} (l : list A) : forall i x, length (<[i := x]> l) = length l.
Proof.
  induction l as [|a l IH]; intros [|i] x; cbn; try reflexivity.
  f_equal. apply IH.
Qed.

(** What [saveLevel] leaves in a storage with room. *)
Lemma saveLevel_stored level st :
  hasRoom st ->
  let after := loadRaw (saveLevel level st) in
  List.find (hasId (level_id level)) (levels after) = Some level
  /\ (forall id, id <> level_id level ->
        List.find (hasId id) (levels after) = List.find (hasId id) (levels (loadRaw st)))
  /\ activeLevelId after = activeLevelId (loadRaw st)
  /\ length (levels after)
     = (length (levels (loadRaw st))
        + match getLevel (level_id level) st with Some _ => 0 | None => 1 end)%nat.
Proof.
  intros Hroom. cbn zeta. unfold saveLevel, getLevel.
  rewrite loadRaw_saveRaw by exact Hroom. cbn [levels activeLevelId].
  assert (Hown : hasId (level_id level) level = true) by (apply hasId_true; reflexivity).
  pose proof (find_findIndex (hasId (level_id level)) (levels (loadRaw st))) as Hfi.
  destruct (findIndex (hasId (level_id level)) (levels (loadRaw st))) as [i|] eqn:Hi.
  - destruct Hfi as (y & Hy & _). rewrite Hy. repeat split.
    + apply find_insert_at; assumption.
    + intros id Hne. apply (find_insert_other (hasId (level_id level))); try assumption.
      * intros l Hl. apply (hasId_other (level_id level)); assumption.
      * apply (hasId_other (level_id level)); assumption.
    + rewrite length_insert_at. lia.
  - rewrite Hfi. repeat split.
    + rewrite find_app_last by exact Hfi. rewrite Hown. reflexivity.
    + intros id Hne. apply find_app_other.
      apply (hasId_other (level_id level)); assumption.
    + rewrite length_app. reflexivity.
Qed.



Lemma byId_other (ls : list Level) : forall (m : gmap string Level) k,
  ~ In k (map level_id ls) ->
  fold_left (fun m l => <[level_id l := l]> m) ls m !! k = m !! k.
Proof.
  induction ls as [|a ls IH]; intros m k Hk; [reflexivity|].
  cbn [fold_left]. rewrite IH.
  - apply lookup_insert_ne. intros Heq. apply Hk. left. exact Heq.
  - intros Hin. apply Hk. right. exact Hin.
Qed.

Lemma byId_lookup (ls : list Level) l :
  List.NoDup (map level_id ls) -> In l ls -> byId ls !! level_id l = Some l.
Proof.
  unfold byId. generalize (∅ : gmap string Level).
  induction ls as [|a ls IH]; intros m Hnd Hin; [destruct Hin|].
  cbn [map] in Hnd. apply List.NoDup_cons_iff in Hnd as [Hfresh Hnd].
  cbn [fold_left]. destruct Hin as [->|Hin].
  - rewrite byId_other by exact Hfresh. apply lookup_insert_eq.
  - apply IH; assumption.
Qed.

Lemma omap_found {A} (a : A) (l : list (option A)) :
  omap (fun x => x) (Some a :: l) = a :: omap (fun x => x) l.
Proof. reflexivity. Qed.

(** The levels that [reorderLevels] finds for ids that are all stored, the
    first of them getting order [k]. *)
Lemma found_in_order (ls : list Level) : forall ids k,
  List.NoDup (map level_id ls) ->
  (forall id, In id ids -> In id (map level_id ls)) ->
  let found :=
    omap (fun x => x)
         (imap (fun order id => option_map (fun level => withOrder level (k + order))
                                           (byId ls !! id))
               ids) in
  map level_id found = ids
  /\ forall i l, found !! i = Some l -> exists old, In old ls /\ l = withOrder old (k + i).
Proof.
  induction ids as [|id ids IH]; intros k Hnd Hall; cbn zeta.
  - split; [reflexivity | intros i l H; destruct i; discriminate].
  - destruct (proj1 (in_map_iff level_id ls id) (Hall id (or_introl eq_refl)))
      as (old & Hid & Hold).
    subst id. cbn [imap]. rewrite (byId_lookup ls old Hnd Hold).
    cbn [option_map].
    rewrite (imap_ext _ (fun order id0 =>
               option_map (fun level => withOrder level (S k + order)) (byId ls !! id0)))
      by (intros i x _; cbn; replace (k + S i)%nat with (S (k + i)) by lia; reflexivity).
    destruct (IH (S k) Hnd (fun id0 H => Hall id0 (or_intror H))) as (Hids & Hat).
    rewrite !omap_found. split.
    + cbn [map]. rewrite Hids. reflexivity.
    + intros [|i] l Hl.
      * change (Some (withOrder old (k + 0)) = Some l) in Hl.
        injection Hl as Hl. subst l. exists old. auto.
      * change (omap (fun x => x)
                  (imap (fun order id0 =>
                           option_map (fun level => withOrder level (S k + order))
                                      (byId ls !! id0)) ids) !! i = Some l) in Hl.
        destruct (Hat i l Hl) as (old' & Hin & ->).
        exists old'. split; [exact Hin|]. f_equal. lia.
Qed.

Lemma rest_empty (ls : list Level) orderedIds :
  (forall l, In l ls -> In (level_id l) orderedIds) ->
  List.filter (fun l => negb (existsb (String.eqb (level_id l)) orderedIds)) ls = [].
Proof.
  induction ls as [|a ls IH]; intros Hall; [reflexivity|].
  cbn [List.filter].
  assert (Ha : existsb (String.eqb (level_id a)) orderedIds = true).
  { apply existsb_exists. exists (level_id a).
    split; [apply Hall; left; reflexivity | apply String.eqb_refl]. }
  rewrite Ha. cbn [negb]. apply IH. intros l Hl. apply Hall. right. exact Hl.
Qed.

Lemma sortBy_sorted (ls : list Level) :
  (forall i a b, ls !! i = Some a -> ls !! S i = Some b -> level_order a <= level_order b) ->
  Detection.sortBy byOrder ls = ls.
Proof.
  induction ls as [|a ls IH]; intros Hs; [reflexivity|].
  cbn [Detection.sortBy fold_right]. fold (Detection.sortBy byOrder ls).
  rewrite IH by (intros i x y Hx Hy; exact (Hs (S i) x y Hx Hy)).
  destruct ls as [|b ls]; [reflexivity|].
  cbn [Detection.insertBy].
  assert (Hle : leb (byOrder a b) 0 = true).
  { apply leb_true. unfold byOrder.
    pose proof (Hs 0%nat a b eq_refl eq_refl). lra. }
  rewrite Hle. reflexivity.
Qed.

(** X29: reordering by a full list of ids.  In a storage with room whose
    levels have pairwise different ids, [reorderLevels(orderedIds)] with a
    permutation of the stored ids leaves the levels in the order of
    [orderedIds], each one a stored level with its position as its order and
    nothing else changed, and keeps the active level id. *)
Theorem reorderLevels_permutation orderedIds st :
  hasRoom st ->
  List.NoDup (map level_id (levels (loadRaw st))) ->
  Permutation orderedIds (map level_id (levels (loadRaw st))) ->
  let after := loadRaw (reorderLevels orderedIds st) in
  map level_id (levels after) = orderedIds
  /\ (forall i l, levels after !! i = Some l ->
        exists old, In old (levels (loadRaw st)) /\ l = withOrder old i)
  /\ activeLevelId after = activeLevelId (loadRaw st).
Proof.
  intros Hroom Hnd Hperm. cbn zeta. unfold reorderLevels.
  rewrite loadRaw_saveRaw by exact Hroom. cbn [levels activeLevelId].
  rewrite rest_empty, app_nil_r.
  2:{ intros l Hl. apply (Permutation_in _ (Permutation_sym Hperm)).
      apply in_map. exact Hl. }
  destruct (found_in_order (levels (loadRaw st)) orderedIds 0 Hnd) as (Hids & Hat).
  { intros id Hin. apply (Permutation_in _ Hperm). exact Hin. }
  cbn [Nat.add] in Hids, Hat.
  rewrite sortBy_sorted.
  - repeat split; assumption.
  - intros i a b Ha Hb.
    destruct (Hat i a Ha) as (olda & _ & ->). destruct (Hat (S i) b Hb) as (oldb & _ & ->).
    cbn [withOrder level_order]. rewrite <- Zle_Qle. lia.
Qed.

Lemma reorderLevels_permutation_witness :
  map level_id (levels (loadRaw (reorderLevels ["b"; "a"]%string twoLevels)))
  = ["b"; "a"]%string.
Proof.
  apply (reorderLevels_permutation ["b"; "a"]%string twoLevels).
  - intros d. reflexivity.
  - cbn. repeat constructor; cbn; intuition discriminate.
  - cbn. apply perm_swap.
Defined.

Lemma toLegacyShape_merged legacy level :
  toLegacyShape
    (mkLevel (level_id level) (level_name level) (level_order level)
       (orKeep (initialScore legacy) (level_initialScore level))
       (orKeep (scoreDecayPerSecond legacy) (level_scoreDecayPerSecond level))
       (orKeep (items legacy) (level_items level)))
  = merged legacy (toLegacyShape level).
Proof.
  unfold toLegacyShape, merged. cbn.
  destruct (initialScore legacy), (scoreDecayPerSecond legacy), (items legacy); reflexivity.
Qed.

Lemma loadTreasures_active st id level :
  activeLevelId (loadRaw st) = Some id -> truthy id = true ->
  List.find (hasId id) (levels (loadRaw st)) = Some level ->
  loadTreasures st = toLegacyShape level.
Proof.
  intros Ha Ht Hf. unfold loadTreasures, getActiveLevel. rewrite Ha, Ht, Hf. reflexivity.
Qed.

(** X30: saving the treasures of the level being edited.  In a storage with
    room, when the active level id names a stored level or nothing is stored
    yet, what [loadTreasures] returns after [saveTreasures(legacy)] is
    [legacy], with each field that [legacy] leaves out as [loadTreasures]
    returned it before.  When the active level id names no stored level,
    [saveTreasures] writes nothing. *)
Theorem saveTreasures_then_loadTreasures legacy now st :
  hasRoom st ->
  (activeStored st \/ emptyStore st ->
   loadTreasures (saveTreasures legacy now st) = merged legacy (loadTreasures st))
  /\ (activeDangling st -> saveTreasures legacy now st = st).
Proof.
  intros Hroom. split.
  - intros [(id & level & Ha & Ht & Hl) | (Hempty & Hnone)].
    + unfold saveTreasures. rewrite Ha. cbn [orKeep]. rewrite Ht.
      unfold saveInto. rewrite Hl.
      assert (Hid : level_id level = id).
      { apply hasId_true. unfold getLevel in Hl. apply List.find_some in Hl. apply Hl. }
      match goal with |- loadTreasures (saveLevel ?lv st) = _ => set (saved := lv) end.
      destruct (saveLevel_stored saved st Hroom) as (Hown & _ & Hactive & _).
      cbn zeta in Hown, Hactive. change (level_id saved) with (level_id level) in Hown.
      rewrite Hid in Hown.
      rewrite (loadTreasures_active (saveLevel saved st) id saved);
        [| rewrite Hactive; exact Ha | exact Ht | exact Hown].
      rewrite (loadTreasures_active st id level Ha Ht Hl).
      apply toLegacyShape_merged.
    + unfold saveTreasures. rewrite Hnone, Hempty. cbn [orKeep head option_map].
      unfold saveIntoNew, createLevel. rewrite Hnone, Hempty. cbn [app length].
      match goal with |- context [saveRaw ?d st] => set (st1 := saveRaw d st) end.
      assert (Hroom1 : hasRoom st1) by (apply hasRoom_saveRaw; exact Hroom).
      assert (Hst1 : loadRaw st1 = mkData [mkLevel (String.append "level-" now) "기본"
                        (inject_Z (Z.of_nat 0)) (Some 1000) (Some 1) (Some [])] None).
      { apply loadRaw_saveRaw. exact Hroom. }
      cbn [level_id level_name].
      match goal with |- context [saveLevel ?lv st1] => set (saved := lv) end.
      assert (Hst2 : loadRaw (saveLevel saved st1) = mkData [saved] None).
      { unfold saveLevel. rewrite loadRaw_saveRaw by exact Hroom1. rewrite Hst1.
        cbn [levels activeLevelId findIndex]. unfold hasId at 1.
        cbn [level_id saved]. rewrite String.eqb_refl. reflexivity. }
      rewrite Hst2. cbn [levels].
      assert (Hroom2 : hasRoom (saveLevel saved st1)).
      { unfold saveLevel. apply hasRoom_saveRaw. exact Hroom1. }
      rewrite (loadTreasures_active _ (String.append "level-" now) saved).
      * unfold loadTreasures at 1, getActiveLevel. rewrite Hnone, Hempty.
        cbn [firstLevel option_map default]. unfold saved, toLegacyShape, merged.
        cbn. destruct (initialScore legacy), (scoreDecayPerSecond legacy), (items legacy);
          reflexivity.
      * rewrite loadRaw_saveRaw by exact Hroom2. reflexivity.
      * reflexivity.
      * rewrite loadRaw_saveRaw by exact Hroom2. cbn [levels List.find].
        unfold hasId. cbn [level_id saved]. rewrite String.eqb_refl. reflexivity.
  - intros (id & Ha & Ht & Hl).
    unfold saveTreasures. rewrite Ha. cbn [orKeep]. rewrite Ht.
    unfold saveInto. rewrite Hl. reflexivity.
Qed.

Lemma saveTreasures_then_loadTreasures_witness :
  loadTreasures (saveTreasures newGame "1700000000000"%string twoLevels)
    = mkGameData (Some 70) (Some 3) (Some [grandma; grandma])
  /\ loadTreasures (saveTreasures newGame "1700000000000"%string (roomy Absent))
    = mkGameData (Some 70) (Some 1) (Some [grandma; grandma])
  /\ saveTreasures newGame "1700000000000"%string danglingStore = danglingStore.
Proof.
  destruct (saveTreasures_then_loadTreasures newGame "1700000000000"%string twoLevels)
    as (Hstored & _); [intros d; reflexivity|].
  destruct (saveTreasures_then_loadTreasures newGame "1700000000000"%string (roomy Absent))
    as (Hempty & _); [intros d; reflexivity|].
  destruct (saveTreasures_then_loadTreasures newGame "1700000000000"%string danglingStore)
    as (_ & Hdangling); [intros d; reflexivity|].
  split; [|split].
  - rewrite Hstored; [reflexivity|].
    left. exists "b"%string, levelB. repeat split; reflexivity.
  - rewrite Hempty; [reflexivity|].
    right. split; reflexivity.
  - apply Hdangling. exists "gone"%string. repeat split; reflexivity.
Defined.

End LevelsStore.
